(** * RTSID: the detection-and-trigger engine of [RTSID.py]

    A shallow embedding of [ImageWatch], [bring_to_foreground] and
    [MonitorThread.run].  Python objects become records, the calls into
    mss, OpenCV, pytesseract, pyautogui, win10toast, winsound and win32gui
    become the fields of an oracle record [backend] whose answers may be an
    exception, and the body of the detection loop is written in a small
    monad that threads the watch object, the raised exception and the trace
    of backend calls. *)

From Stdlib Require Import ZArith List String Ascii Bool Lia.
From Stdlib Require Import Floats DecimalString Sorted.
Import ListNotations.

Set Warnings "-inexact-float".

Open Scope Z_scope.
Open Scope string_scope.
Open Scope list_scope.

(** ** Python values *)

(** An exception caught by [except Exception as e], kept as [str(e)]. *)
Definition exn := string.

(** The result of a call that may raise. *)
Definition res (A : Type) : Type := (exn + A)%type.

(** A numpy array: its shape and the entry at every index. *)
Record ndarray := { shape : list Z; entry : list Z -> Z }.

(** A monitor dictionary of mss: the keys ['left'], ['top'], ['width'],
    ['height'].  Both the dictionary built from a region and
    [sct.monitors[1]] carry the four keys, so the default of
    [mon.get('left', 0)] is never taken. *)
Record monitor := {
  mon_left : Z; mon_top : Z; mon_width : Z; mon_height : Z }.

(** [str.lower] and [sub in s], on ASCII text. *)
Definition lower_ascii (c : ascii) : ascii :=
  let n := nat_of_ascii c in
  if (andb (Nat.leb 65 n) (Nat.leb n 90)) then ascii_of_nat (n + 32) else c.

Fixpoint lower (s : string) : string :=
  match s with
  | EmptyString => EmptyString
  | String c r => String (lower_ascii c) (lower r)
  end.

Fixpoint contains (sub s : string) : bool :=
  if String.prefix sub s then true
  else match s with
       | EmptyString => false
       | String _ r => contains sub r
       end.

(** Truthiness of an [Optional[str]] attribute: [None] and [''] are false. *)
Definition truthy (o : option string) : bool :=
  match o with
  | Some s => negb (String.eqb s "")
  | None => false
  end.

Definition is_Some {A} (o : option A) : bool :=
  match o with Some _ => true | None => false end.

(** The string of an attribute that passed the truthiness test. *)
Definition unwrap (o : option string) : string :=
  match o with Some s => s | None => "" end.

(** [text or None] *)
Definition or_None (text : string) : option string :=
  if String.eqb text "" then None else Some text.

(** [frame[..., :3]]: the view of the first three entries of the last
    axis. *)
Definition first3 (a : ndarray) : res ndarray :=
  match rev (shape a) with
  | [] => inl "too many indices for array"
  | c :: outer =>
      inr {| shape := rev outer ++ [Z.min c 3]; entry := entry a |}
  end.

(** ** ImageWatch *)

Record ImageWatch := {
  path : string;
  template : option ndarray;
  h : Z;
  w : Z;
  threshold : float;
  region : option (Z * Z * Z * Z);       (* (x, y, w, h) *)
  move_mouse : bool;
  mouse_speed : float;
  click : bool;
  press_key : option string;
  notify : bool;
  sound : option string;
  window_title : option string;
  mask : option ndarray;
  mask_path : option string;
  ocr_fallback : bool;
  _triggered : bool }.

(** [item._triggered = v] *)
Definition set_triggered (v : bool) (item : ImageWatch) : ImageWatch :=
  {| path := path item; template := template item; h := h item; w := w item;
     threshold := threshold item; region := region item;
     move_mouse := move_mouse item; mouse_speed := mouse_speed item;
     click := click item; press_key := press_key item; notify := notify item;
     sound := sound item; window_title := window_title item;
     mask := mask item; mask_path := mask_path item;
     ocr_fallback := ocr_fallback item; _triggered := v |}.

(** ** The backends *)

Definition hwnd := Z.

(** What the libraries answer while one watch is processed.  Every call of
    the loop body is made at most once per watch and tick, so one record of
    functions describes the environment of one such step; it changes from
    step to step as the screen does. *)
Record backend := {
  cv2_imread : string -> option ndarray;
  cv2_cvtColor : ndarray -> res ndarray;
  (* cv2.minMaxLoc(cv2.matchTemplate(gray, templ, TM_CCOEFF_NORMED[, mask])):
     (max_val, max_loc) *)
  cv2_matchTemplate : ndarray -> ndarray -> option ndarray -> res (float * (Z * Z));
  sct_monitors : list monitor;
  sct_grab : monitor -> res ndarray;       (* np.array(sct.grab(mon)) *)
  image_to_string : ndarray -> string -> res string;
  pyautogui_moveTo : Z -> Z -> float -> res unit;
  pyautogui_click : res unit;
  pyautogui_press : string -> res unit;
  show_toast : string -> string -> res unit;
  PlaySound : string -> res unit;
  EnumWindows : res (list hwnd);
  GetWindowText : hwnd -> string;
  IsWindowVisible : hwnd -> bool;
  ShowWindow : hwnd -> Z -> res unit;
  SetForegroundWindow : hwnd -> res unit }.

(** The calls a step makes, in order, and the error signal it emits. *)
Inductive event :=
| EGrab (mon : monitor)
| ECvtColor
| EMatchTemplate (masked : bool)
| EOcr (lang : string)
| EMoveTo (cx cy : Z) (duration : float)
| EClick
| EPress (key : string)
| EToast (title msg : string)
| ESound (file : string)
| EEnumWindows
| EShowWindow (hw : hwnd) (cmd : Z)
| ESetForegroundWindow (hw : hwnd)
| EError (msg : string).

(** ** The monad of the loop body

    A computation reads and writes the watch object it works on, logs its
    backend calls, and ends with a value or with a raised exception.  The
    object keeps what was written to it before the exception. *)
Definition M (A : Type) : Type :=
  ImageWatch -> res A * ImageWatch * list event.

Definition ret {A} (a : A) : M A := fun s => (inr a, s, []).

Definition bind {A B} (m : M A) (k : A -> M B) : M B :=
  fun s =>
    match m s with
    | (inl e, s1, t1) => (inl e, s1, t1)
    | (inr a, s1, t1) =>
        match k a s1 with
        | (r, s2, t2) => (r, s2, t1 ++ t2)
        end
    end.

Notation "x <- m ;; k" := (bind m (fun x => k))
  (at level 61, m at next level, right associativity).
Notation "' pat <- m ;; k" := (bind m (fun x => match x with pat => k end))
  (at level 61, pat pattern, m at next level, right associativity).
Notation "m ;;; k" := (bind m (fun _ => k))
  (at level 61, right associativity).

(** A backend call: logged, then its answer. *)
Definition call {A} (ev : event) (r : res A) : M A := fun s => (r, s, [ev]).

(** A pure step that may raise (an index error), not logged. *)
Definition lift {A} (r : res A) : M A := fun s => (r, s, []).

Definition get : M ImageWatch := fun s => (inr s, s, []).

Definition put_triggered (v : bool) : M unit :=
  fun s => (inr tt, set_triggered v s, []).

Definition when (c : bool) (m : M unit) : M unit := if c then m else ret tt.

Definition outcome {A} (x : res A * ImageWatch * list event) : res A := fst (fst x).
Definition final {A} (x : res A * ImageWatch * list event) : ImageWatch := snd (fst x).
Definition trace {A} (x : res A * ImageWatch * list event) : list event := snd x.

(** ** Module-level functions *)

(** [grayscale(image)] *)
Definition grayscale (b : backend) (image : ndarray) : res ndarray :=
  cv2_cvtColor b image.

(** [bring_to_foreground(title_substring)] *)
Definition enum_callback (b : backend) (title_substring : string) (hw : hwnd) : bool :=
  let title := lower (GetWindowText b hw) in
  andb (IsWindowVisible b hw) (contains (lower title_substring) title).

Definition bring_to_foreground (b : backend) (title_substring : string) : M unit :=
  hwnds <- call EEnumWindows (EnumWindows b) ;;
  match filter (enum_callback b title_substring) hwnds with
  | hw :: _ =>
      call (EShowWindow hw 5) (ShowWindow b hw 5) ;;;
      call (ESetForegroundWindow hw) (SetForegroundWindow b hw)
  | [] => ret tt
  end.

(** [ImageWatch.__init__(path)] *)
Definition ImageWatch_init (b : backend) (p : string) : res ImageWatch :=
  let make t hh ww :=
    {| path := p; template := t; h := hh; w := ww;
       threshold := 0.8%float; region := None;
       move_mouse := false; mouse_speed := 0.0%float; click := false;
       press_key := None; notify := false; sound := None;
       window_title := None; mask := None; mask_path := None;
       ocr_fallback := false; _triggered := false |} in
  match cv2_imread b p with
  | None => inr (make None 0 0)
  | Some img =>
      match grayscale b img with
      | inl e => inl e
      | inr g =>
          match shape g with
          | hh :: ww :: _ => inr (make (Some g) hh ww)
          | _ => inl "not enough values to unpack"
          end
      end
  end.

(** ** MonitorThread.run: one watch of one tick

    The body of the [for] is taken as one step of the watch: the UI
    thread's writes to the watch land between steps, not inside one. *)

(** Lines 86-90: the capture rectangle. *)
Definition select_mon (b : backend) (item : ImageWatch) : res monitor :=
  match region item with
  | Some (x, y, rw, rh) =>
      inr {| mon_left := x; mon_top := y; mon_width := rw; mon_height := rh |}
  | None =>
      match nth_error (sct_monitors b) 1 with
      | Some m => inr m
      | None => inl "list index out of range"
      end
  end.

(** Lines 86-109: capture, match and OCR fallback.  [None] is the
    [continue] of a watch without template; otherwise the capture
    rectangle, [found] and [max_loc]. *)
Definition locate (b : backend) (lang : string)
  : M (option (monitor * bool * (Z * Z))) :=
  item <- get ;;
  mon <- lift (select_mon b item) ;;
  frame <- call (EGrab mon) (sct_grab b mon) ;;
  bgr <- lift (first3 frame) ;;
  gray <- call ECvtColor (grayscale b bgr) ;;
  match template item with
  | None => ret None
  | Some templ =>
      '(max_val, max_loc) <-
        call (EMatchTemplate (is_Some (mask item)))
             (cv2_matchTemplate b gray templ (mask item)) ;;
      let found := (threshold item <=? max_val)%float in
      if andb (negb found) (ocr_fallback item) then
        text <- call (EOcr lang) (image_to_string b frame lang) ;;
        if contains "skip" (lower text) then
          ret (Some (mon, true, (mon_width mon / 2, mon_height mon / 2)))
        else ret (Some (mon, found, max_loc))
      else ret (Some (mon, found, max_loc))
  end.

(** Lines 111-131: the actions of a rising edge. *)
Definition fire (b : backend) (mon : monitor) (max_loc : Z * Z) : M unit :=
  put_triggered true ;;;
  item <- get ;;
  let '(x, y) := max_loc in
  let cx := mon_left mon + x + w item / 2 in
  let cy := mon_top mon + y + h item / 2 in
  when (move_mouse item)
    (call (EMoveTo cx cy (mouse_speed item))
          (pyautogui_moveTo b cx cy (mouse_speed item))) ;;;
  when (click item) (call EClick (pyautogui_click b)) ;;;
  when (truthy (press_key item))
    (call (EPress (unwrap (press_key item)))
          (pyautogui_press b (unwrap (press_key item)))) ;;;
  when (notify item)
    (call (EToast "Detected" (path item ++ " detected."))
          (show_toast b "Detected" (path item ++ " detected."))) ;;;
  when (truthy (sound item))
    (call (ESound (unwrap (sound item)))
          (PlaySound b (unwrap (sound item)))) ;;;
  when (truthy (window_title item))
    (bring_to_foreground b (unwrap (window_title item))).

(** Lines 110-133: the edge trigger. *)
Definition transition (b : backend) (mon : monitor) (found : bool)
    (max_loc : Z * Z) : M unit :=
  item <- get ;;
  if andb found (negb (_triggered item)) then fire b mon max_loc
  else if negb found then put_triggered false
  else ret tt.

(** Lines 86-133: the body of the [try]. *)
Definition process_item (b : backend) (lang : string) : M unit :=
  r <- locate b lang ;;
  match r with
  | None => ret tt
  | Some (mon, found, max_loc) => transition b mon found max_loc
  end.

(** Lines 85-135: [try: ... except Exception as e: self.error.emit(str(e))].
    The watch as the step leaves it, and the calls made. *)
Definition guarded_item (b : backend) (lang : string) (item : ImageWatch)
  : ImageWatch * list event :=
  match process_item b lang item with
  | (inr _, item', t) => (item', t)
  | (inl e, item', t) => (item', t ++ [EError e])
  end.

(** ** The control thread: MainWindow's handlers that write a watch

    The handlers run on the UI thread while the loop runs; each one writes
    one or two attributes of the selected watch.  None of them writes
    [template], [h], [w], [path] or [_triggered].  [_browse_mask] stores
    what [cv2.threshold] returned for the file read, which is [None] for a
    file that does not decode. *)
Inductive ui_op :=
| on_sensitivity (val : Z)
| set_region (r : Z * Z * Z * Z)     (* _on_region_text, _set_region *)
| on_move_toggle (state : Z)
| on_speed_change (value : float)
| on_click_toggle (state : Z)
| on_key_press (text : string)
| on_notify_toggle (state : Z)
| browse_sound (file : string)
| on_ocr_toggle (state : Z)
| browse_mask (file : string) (m : option ndarray)
| on_window_activate (text : string).

(** [bool(state)] of an int *)
Definition bool_of_int (state : Z) : bool := negb (Z.eqb state 0).

(** [val / 100.0], [val] a value of the slider, from 1 to 100 *)
Definition percent (val : Z) : float :=
  (PrimFloat.of_uint63 (Uint63.of_Z val) / 100)%float.

Definition apply_ui (item : ImageWatch) (op : ui_op) : ImageWatch :=
  let upd thr reg mv sp cl key nt snd wt mk mp ocr :=
    {| path := path item; template := template item; h := h item; w := w item;
       threshold := thr; region := reg; move_mouse := mv; mouse_speed := sp;
       click := cl; press_key := key; notify := nt; sound := snd;
       window_title := wt; mask := mk; mask_path := mp; ocr_fallback := ocr;
       _triggered := _triggered item |} in
  let thr := threshold item in let reg := region item in
  let mv := move_mouse item in let sp := mouse_speed item in
  let cl := click item in let key := press_key item in
  let nt := notify item in let snd := sound item in
  let wt := window_title item in let mk := mask item in
  let mp := mask_path item in let ocr := ocr_fallback item in
  match op with
  | on_sensitivity val => upd (percent val) reg mv sp cl key nt snd wt mk mp ocr
  | set_region r => upd thr (Some r) mv sp cl key nt snd wt mk mp ocr
  | on_move_toggle st => upd thr reg (bool_of_int st) sp cl key nt snd wt mk mp ocr
  | on_speed_change v => upd thr reg mv v cl key nt snd wt mk mp ocr
  | on_click_toggle st => upd thr reg mv sp (bool_of_int st) key nt snd wt mk mp ocr
  | on_key_press text => upd thr reg mv sp cl (or_None text) nt snd wt mk mp ocr
  | on_notify_toggle st => upd thr reg mv sp cl key (bool_of_int st) snd wt mk mp ocr
  | browse_sound f =>
      if String.eqb f "" then item
      else upd thr reg mv sp cl key nt (Some f) wt mk mp ocr
  | on_ocr_toggle st => upd thr reg mv sp cl key nt snd wt mk mp (bool_of_int st)
  | browse_mask f m =>
      if String.eqb f "" then item
      else upd thr reg mv sp cl key nt snd wt m (Some f) ocr
  | on_window_activate text => upd thr reg mv sp cl key nt snd (or_None text) mk mp ocr
  end.

Definition apply_uis (ops : list ui_op) (item : ImageWatch) : ImageWatch :=
  fold_left apply_ui ops item.

(** ** One watch over the ticks of its life

    A step of a watch: what the UI thread wrote to it since the previous
    tick, and the backends' answers while the tick processes it. *)
Definition step := (list ui_op * backend)%type.

Definition do_step (lang : string) (item : ImageWatch) (s : step)
  : ImageWatch * list event :=
  guarded_item (snd s) lang (apply_uis (fst s) item).

(** The watch after the steps, and the calls of every tick. *)
Fixpoint watch_life (lang : string) (steps : list step) (item : ImageWatch)
  : ImageWatch * list (list event) :=
  match steps with
  | [] => (item, [])
  | s :: rest =>
      let '(item1, t) := do_step lang item s in
      let '(item2, ts) := watch_life lang rest item1 in
      (item2, t :: ts)
  end.

(** ** MonitorThread *)

Record MonitorThread := {
  watch_list : list ImageWatch;
  interval : float;
  ocr_lang : string;
  running : bool }.

(** [MonitorThread(watch_list, interval=0.1, ocr_lang='eng')] *)
Definition MonitorThread_init (wl : list ImageWatch) (iv : float)
    (lang : string) : MonitorThread :=
  {| watch_list := wl; interval := iv; ocr_lang := lang; running := false |}.

Definition MonitorThread_default (wl : list ImageWatch) : MonitorThread :=
  MonitorThread_init wl 0.1%float "eng".

Definition set_running (v : bool) (th : MonitorThread) : MonitorThread :=
  {| watch_list := watch_list th; interval := interval th;
     ocr_lang := ocr_lang th; running := v |}.

Definition set_watch_list (wl : list ImageWatch) (th : MonitorThread)
  : MonitorThread :=
  {| watch_list := wl; interval := interval th;
     ocr_lang := ocr_lang th; running := running th |}.

(** What happens around the thread during one iteration of the [while]:
    the two readings of [time.time()], per watch of the snapshot the UI
    thread's writes and the backends' answers, and whether the UI thread
    asks to stop ([self.monitor_thread.running = False]): [Some k] with [k]
    below the length of the snapshot is a request that arrives just before
    the [k]-th watch is processed, a larger [k] one that arrives during the
    pacing at the end of the tick.  The UI thread adds and removes no
    watch during the run: the snapshot [list(self.watch_list)] of a tick
    is the list itself. *)
Record tick_env := {
  clock_start : float;
  clock_end : float;
  ui_writes : nat -> list ui_op;
  answers : nat -> backend;
  stop_request : option nat }.

(** What the loop does, in order. *)
Inductive loop_event :=
| LSetRunning                          (* self.running = True *)
| LWhile (flag : bool)                 (* the test of [while self.running] *)
| LTime (t : float)                    (* a reading of time.time() *)
| LItem (i : nat) (t : list event)     (* the i-th watch of the snapshot *)
| LStopRequest                         (* the UI thread's running = False *)
| LSleep (d : float).                  (* time.sleep(d) *)

Definition stop_arrives (env : tick_env) (i : nat) : bool :=
  match stop_request env with
  | Some k => Nat.eqb k i
  | None => false
  end.

Definition stop_in_pacing (env : tick_env) (n : nat) : bool :=
  match stop_request env with
  | Some k => Nat.leb n k
  | None => false
  end.

(** Lines 84-135: [for item in list(self.watch_list)].  [flag] is
    [self.running], which only the UI thread writes here. *)
Fixpoint for_items (env : tick_env) (lang : string) (i : nat)
    (items : list ImageWatch) (flag : bool)
  : list ImageWatch * bool * list loop_event :=
  match items with
  | [] => ([], flag, [])
  | item :: rest =>
      let stop := stop_arrives env i in
      let '(item', t) := do_step lang item (ui_writes env i, answers env i) in
      let '(rest', flag', l) :=
        for_items env lang (S i) rest (if stop then false else flag) in
      (item' :: rest', flag',
       (if stop then [LStopRequest] else []) ++ LItem i t :: l)
  end.

(** Lines 136-138: the pacing. *)
Definition pacing (iv elapsed : float) : option float :=
  if (elapsed <? iv)%float then Some (iv - elapsed)%float else None.

(** Lines 83-138: one iteration of the [while]. *)
Definition iteration (env : tick_env) (th : MonitorThread)
  : MonitorThread * list loop_event :=
  let start := clock_start env in
  let '(items, flag, l) :=
    for_items env (ocr_lang th) 0 (watch_list th) (running th) in
  let elapsed := (clock_end env - start)%float in
  let late := stop_in_pacing env (List.length (watch_list th)) in
  (set_running (if late then false else flag) (set_watch_list items th),
   [LTime start] ++ l ++ [LTime (clock_end env)]
     ++ match pacing (interval th) elapsed with
        | Some d => [LSleep d]
        | None => []
        end
     ++ (if late then [LStopRequest] else [])).

(** How a run over finitely many iterations ends: the loop has left the
    [while], or the environments given are used up and it still runs. *)
Inductive ending := Returned | StillRunning.

(** Line 82: [while self.running]. *)
Fixpoint loop (envs : list tick_env) (th : MonitorThread)
  : ending * MonitorThread * list loop_event :=
  if running th then
    match envs with
    | [] => (StillRunning, th, [])
    | env :: rest =>
        let '(th1, l1) := iteration env th in
        let '(e, th2, l2) := loop rest th1 in
        (e, th2, LWhile true :: l1 ++ l2)
    end
  else (Returned, th, [LWhile false]).

(** Lines 79-138: [MonitorThread.run]. *)
Definition run (envs : list tick_env) (th : MonitorThread)
  : ending * MonitorThread * list loop_event :=
  let '(e, th', l) := loop envs (set_running true th) in
  (e, th', LSetRunning :: l).

(** ** The actions of a rising edge as a list

    The same block as [fire], read as the list of the configured actions
    performed in order until one raises. *)
Inductive action :=
| Move (cx cy : Z) (d : float)
| Click
| Press (k : string)
| Toast (title msg : string)
| Sound (f : string)
| Window (t : string).

Definition perform (b : backend) (a : action) : M unit :=
  match a with
  | Move cx cy d => call (EMoveTo cx cy d) (pyautogui_moveTo b cx cy d)
  | Click => call EClick (pyautogui_click b)
  | Press k => call (EPress k) (pyautogui_press b k)
  | Toast t m => call (EToast t m) (show_toast b t m)
  | Sound f => call (ESound f) (PlaySound b f)
  | Window t => bring_to_foreground b t
  end.

Fixpoint perform_all (b : backend) (l : list action) : M unit :=
  match l with
  | [] => ret tt
  | a :: r => perform b a ;;; perform_all b r
  end.

Definition opt (c : bool) (a : action) : list action :=
  if c then [a] else [].

(** The configured actions of a watch, in the order of lines 115-131. *)
Definition configured (item : ImageWatch) (cx cy : Z) : list action :=
  opt (move_mouse item) (Move cx cy (mouse_speed item))
  ++ opt (click item) Click
  ++ opt (truthy (press_key item)) (Press (unwrap (press_key item)))
  ++ opt (notify item) (Toast "Detected" (path item ++ " detected."))
  ++ opt (truthy (sound item)) (Sound (unwrap (sound item)))
  ++ opt (truthy (window_title item)) (Window (unwrap (window_title item))).

(** Lines 112-114: the centre of the match on the screen. *)
Definition centre (item : ImageWatch) (mon : monitor) (max_loc : Z * Z) : Z * Z :=
  (mon_left mon + fst max_loc + w item / 2,
   mon_top mon + snd max_loc + h item / 2).

(** The answer of an action, whatever the watch. *)
Definition answer (b : backend) (a : action) (item : ImageWatch) : res unit :=
  outcome (perform b a item).

(** The actions reached: all up to and including the first that raises. *)
Fixpoint reached (b : backend) (item : ImageWatch) (l : list action)
  : list action :=
  match l with
  | [] => []
  | a :: r =>
      a :: match answer b a item with
           | inl _ => []
           | inr _ => reached b item r
           end
  end.

(** The first exception among the actions, if any. *)
Fixpoint first_failure (b : backend) (item : ImageWatch) (l : list action)
  : option exn :=
  match l with
  | [] => None
  | a :: r =>
      match answer b a item with
      | inl e => Some e
      | inr _ => first_failure b item r
      end
  end.

Definition calls_of (b : backend) (item : ImageWatch) (l : list action)
  : list event :=
  flat_map (fun a => trace (perform b a item)) l.

(** Classes of events. *)
Definition is_action (ev : event) : bool :=
  match ev with
  | EMoveTo _ _ _ | EClick | EPress _ | EToast _ _ | ESound _
  | EEnumWindows | EShowWindow _ _ | ESetForegroundWindow _ => true
  | _ => false
  end.

Definition is_ocr (ev : event) : bool :=
  match ev with EOcr _ => true | _ => false end.

Definition is_error (ev : event) : bool :=
  match ev with EError _ => true | _ => false end.

(** The tick fired: it made a call of an action. *)
Definition fired (t : list event) : bool := existsb is_action t.

(** ** A simulated desktop, for the examples *)

Definition zeros (shp : list Z) : ndarray :=
  {| shape := shp; entry := fun _ => 0 |}.

Definition rows (a : ndarray) : Z := nth 0 (shape a) 0.
Definition cols (a : ndarray) : Z := nth 1 (shape a) 0.

(** The size assertions of cv2.matchTemplate: with a mask the template must
    fit into the image; without one it may also cover the image in both
    dimensions (the two are then swapped), and it is rejected when it
    exceeds the image in one dimension and is smaller in the other. *)
Definition cv2_accepts (img templ : ndarray) (m : option ndarray) : bool :=
  match m with
  | Some _ => andb (rows templ <=? rows img)%Z (cols templ <=? cols img)%Z
  | None =>
      orb (andb (rows templ <=? rows img)%Z (cols templ <=? cols img)%Z)
          (andb (rows img <=? rows templ)%Z (cols img <=? cols templ)%Z)
  end.

(** The template exceeds the frame in one dimension at least. *)
Definition oversized (img templ : ndarray) : bool :=
  orb (rows img <? rows templ)%Z (cols img <? cols templ)%Z.

(** A desktop whose matcher answers [(score, loc)] for the shapes cv2
    accepts, whose OCR answers [ocr], and whose pointer calls answer
    [move] and [clk]; the other calls succeed. *)
Definition desktop (score : float) (loc : Z * Z) (ocr : res string)
    (move clk : res unit) : backend :=
  {| cv2_imread := fun _ => None;
     cv2_cvtColor := fun a => inr (zeros (firstn 2 (shape a)));
     cv2_matchTemplate := fun img templ m =>
       if cv2_accepts img templ m then inr (score, loc)
       else inl "(-215:Assertion failed) in function 'matchTemplate'";
     sct_monitors :=
       [ {| mon_left := 0; mon_top := 0; mon_width := 1920; mon_height := 1080 |};
         {| mon_left := 0; mon_top := 0; mon_width := 1920; mon_height := 1080 |} ];
     sct_grab := fun mon => inr (zeros [mon_height mon; mon_width mon; 4]);
     image_to_string := fun _ _ => ocr;
     pyautogui_moveTo := fun _ _ _ => move;
     pyautogui_click := clk;
     pyautogui_press := fun _ => inr tt;
     show_toast := fun _ _ => inr tt;
     PlaySound := fun _ => inr tt;
     EnumWindows := inr [];
     GetWindowText := fun _ => "";
     IsWindowVisible := fun _ => false;
     ShowWindow := fun _ _ => inr tt;
     SetForegroundWindow := fun _ => inr tt |}.

(** The watch of the scenario: threshold 0.8, a 20x20 template, the region
    (0, 0, 100, 100), pointer move and click configured. *)
Definition watch20 : ImageWatch :=
  {| path := "skip.png"; template := Some (zeros [20; 20]); h := 20; w := 20;
     threshold := 0.8%float; region := Some (0, 0, 100, 100);
     move_mouse := true; mouse_speed := 0.0%float; click := true;
     press_key := None; notify := false; sound := None;
     window_title := None; mask := None; mask_path := None;
     ocr_fallback := false; _triggered := false |}.

Definition calm (score : float) (loc : Z * Z) : backend :=
  desktop score loc (inr "") (inr tt) (inr tt).

(** The five ticks of the scenario. *)
Definition scenario : list step :=
  [ ([], calm 0.75 (3, 4)); ([], calm 0.85 (40, 40)); ([], calm 0.85 (40, 40));
    ([], calm 0.5 (7, 7)); ([], calm 0.9 (41, 40)) ].

(** What a tick found for a watch: the value of [found] when the body
    reaches line 110, nothing when it raised before or left by [continue]. *)
Definition found_of (b : backend) (lang : string) (item : ImageWatch)
  : option bool :=
  match outcome (locate b lang item) with
  | inr (Some (_, f, _)) => Some f
  | _ => None
  end.

(** A computation that leaves the watch as it is, makes no call of an
    action and emits no error. *)
Definition quiet_event (ev : event) : Prop :=
  is_action ev = false /\ is_error ev = false.

Definition quiet {A} (m : M A) : Prop :=
  forall s, final (m s) = s /\ Forall quiet_event (trace (m s)).

(** An episode: every tick of the steps finds the watch. *)
Fixpoint all_found (lang : string) (steps : list step) (item : ImageWatch)
  : bool :=
  match steps with
  | [] => true
  | s :: rest =>
      match found_of (snd s) lang (apply_uis (fst s) item) with
      | Some true => all_found lang rest (fst (do_step lang item s))
      | _ => false
      end
  end.

(** No tick of the steps ends with the watch not found: each one finds
    it, raises before line 110, or skips a watch without template. *)
Fixpoint unbroken (lang : string) (steps : list step) (item : ImageWatch)
  : bool :=
  match steps with
  | [] => true
  | s :: rest =>
      match found_of (snd s) lang (apply_uis (fst s) item) with
      | Some false => false
      | _ => unbroken lang rest (fst (do_step lang item s))
      end
  end.

(** The number of ticks that fired. *)
Definition fires (ts : list (list event)) : nat :=
  List.length (filter fired ts).

(** What each tick of the steps found. *)
Fixpoint life_found (lang : string) (steps : list step) (item : ImageWatch)
  : list (option bool) :=
  match steps with
  | [] => []
  | s :: rest =>
      found_of (snd s) lang (apply_uis (fst s) item)
        :: life_found lang rest (fst (do_step lang item s))
  end.

(** The watch has an action configured. *)
Definition has_action (item : ImageWatch) : bool :=
  move_mouse item || click item || truthy (press_key item) || notify item
  || truthy (sound item) || truthy (window_title item).

(** The backend keeps cv2's size assertions: the matcher raises for the
    shapes cv2 rejects. *)
Definition cv2_contract (b : backend) : Prop :=
  forall img templ m, cv2_accepts img templ m = false ->
  exists e, cv2_matchTemplate b img templ m = inl e.

(** A watch whose template, 200 rows by 20 columns, is taller than its
    region of 100 by 100. *)
Definition tall_watch : ImageWatch :=
  {| path := "tall.png"; template := Some (zeros [200; 20]); h := 200; w := 20;
     threshold := 0.8%float; region := Some (0, 0, 100, 100);
     move_mouse := true; mouse_speed := 0.0%float; click := true;
     press_key := None; notify := false; sound := None;
     window_title := None; mask := None; mask_path := None;
     ocr_fallback := false; _triggered := false |}.

(** The region of the examples. *)
Definition region100 : monitor :=
  {| mon_left := 0; mon_top := 0; mon_width := 100; mon_height := 100 |}.

(** A desktop on which pyautogui.moveTo raises. *)
Definition stuck_pointer : backend :=
  desktop 0.85 (40, 40) (inr "") (inl "FailSafeException") (inr tt).

(** A desktop on which pyautogui.click raises. *)
Definition slipping_click : backend :=
  desktop 0.85 (40, 40) (inr "") (inr tt) (inl "click failed").

(** A desktop without OCR engine, the template scoring 0.5. *)
Definition no_tesseract : backend :=
  desktop 0.5 (7, 7) (inl "tesseract is not installed") (inr tt) (inr tt).

(** The watch of the scenario with OCR fallback, after it has fired. *)
Definition armed_ocr_watch : ImageWatch :=
  {| path := "skip.png"; template := Some (zeros [20; 20]); h := 20; w := 20;
     threshold := 0.8%float; region := Some (0, 0, 100, 100);
     move_mouse := true; mouse_speed := 0.0%float; click := true;
     press_key := None; notify := false; sound := None;
     window_title := None; mask := None; mask_path := None;
     ocr_fallback := true; _triggered := true |}.

(** The watches a tick processed, by their place in the snapshot. *)
Fixpoint items_done (l : list loop_event) : list nat :=
  match l with
  | [] => []
  | LItem i _ :: r => i :: items_done r
  | _ :: r => items_done r
  end.

(** The origin of the capture rectangle: the region's (x, y), or the
    origin of [sct.monitors[1]] when no region is set. *)
Definition region_origin (b : backend) (item : ImageWatch) : option (Z * Z) :=
  match region item with
  | Some (x, y, _, _) => Some (x, y)
  | None =>
      match nth_error (sct_monitors b) 1 with
      | Some m => Some (mon_left m, mon_top m)
      | None => None
      end
  end.

Definition is_match_or_ocr (ev : event) : bool :=
  match ev with
  | EMatchTemplate _ | EOcr _ => true
  | _ => false
  end.

(** A watch whose image does not decode. *)
Definition inert_watch : ImageWatch :=
  {| path := "missing.png"; template := None; h := 0; w := 0;
     threshold := 0.8%float; region := None;
     move_mouse := false; mouse_speed := 0.0%float; click := false;
     press_key := None; notify := false; sound := None;
     window_title := None; mask := None; mask_path := None;
     ocr_fallback := false; _triggered := false |}.

(** Two ticks on a desktop that shows the keyword, the UI thread having
    set OCR fallback, click and a low threshold before the first. *)
Definition inert_steps : list step :=
  [ ([on_ocr_toggle 2; on_click_toggle 2; on_sensitivity 1],
     desktop 1.0 (0, 0) (inr "Skip Ad") (inr tt) (inr tt));
    ([], desktop 1.0 (0, 0) (inr "Skip Ad") (inr tt) (inr tt)) ].

(** Readings of a trace of the loop: the sleeps taken, the flags the
    tests of the [while] read. *)
Fixpoint sleeps (l : list loop_event) : list float :=
  match l with
  | [] => []
  | LSleep d :: r => d :: sleeps r
  | _ :: r => sleeps r
  end.

Fixpoint whiles (l : list loop_event) : list bool :=
  match l with
  | [] => []
  | LWhile f :: r => f :: whiles r
  | _ :: r => whiles r
  end.

(** The sleep of a tick with the two clock readings of [env]. *)
Definition naps (iv : float) (env : tick_env) : list float :=
  match pacing iv (clock_end env - clock_start env)%float with
  | Some d => [d]
  | None => []
  end.

(** The same surroundings without the request to stop. *)
Definition without_stop (env : tick_env) : tick_env :=
  {| clock_start := clock_start env; clock_end := clock_end env;
     ui_writes := ui_writes env; answers := answers env;
     stop_request := None |}.

Definition not_stop (ev : loop_event) : bool :=
  match ev with LStopRequest => false | _ => true end.

(** Every [time.sleep] comes right after a test of the flag. *)
Fixpoint sleeps_checked (after_test : bool) (l : list loop_event) : bool :=
  match l with
  | [] => true
  | LSleep _ :: r => after_test && sleeps_checked false r
  | LWhile _ :: r => sleeps_checked true r
  | _ :: r => sleeps_checked false r
  end.

(** One tick around the desktop [b], between two clock readings. *)
Definition one_tick (t0 t1 : float) (b : backend) (stop : option nat)
  : tick_env :=
  {| clock_start := t0; clock_end := t1; ui_writes := fun _ => [];
     answers := fun _ => b; stop_request := stop |}.

(** A tick of 30 ms and a tick of 250 ms against the interval of 100 ms. *)
Definition paced_ticks : list tick_env :=
  [ one_tick 10.0 10.03 (calm 0.5 (7, 7)) None;
    one_tick 10.1 10.35 (calm 0.85 (40, 40)) None ].

(** A tick of 30 ms during which the UI thread asks to stop, just before
    the first watch is processed. *)
Definition stopping_tick : list tick_env :=
  [ one_tick 10.0 10.03 (calm 0.85 (40, 40)) (Some 0%nat) ].

(** The steps of the watch at place [j] of the list over the iterations,
    and its part of the trace of the loop. *)
Definition steps_of (envs : list tick_env) (j : nat) : list step :=
  map (fun env => (ui_writes env j, answers env j)) envs.

Fixpoint item_traces (j : nat) (l : list loop_event) : list (list event) :=
  match l with
  | [] => []
  | LItem i t :: r =>
      if Nat.eqb i j then t :: item_traces j r else item_traces j r
  | _ :: r => item_traces j r
  end.

(** A desktop with three top-level windows, the first of them hidden. *)
Definition office : backend :=
  {| cv2_imread := fun _ => None;
     cv2_cvtColor := fun a => inr (zeros (firstn 2 (shape a)));
     cv2_matchTemplate := fun _ _ _ => inr (0.5%float, (0, 0));
     sct_monitors := [region100; region100];
     sct_grab := fun mon => inr (zeros [mon_height mon; mon_width mon; 4]);
     image_to_string := fun _ _ => inr "Press SKIP to continue";
     pyautogui_moveTo := fun _ _ _ => inr tt;
     pyautogui_click := inr tt;
     pyautogui_press := fun _ => inr tt;
     show_toast := fun _ _ => inr tt;
     PlaySound := fun _ => inr tt;
     EnumWindows := inr [101; 102; 103];
     GetWindowText := fun hw =>
       if Z.eqb hw 101 then "Video Player (hidden)"
       else if Z.eqb hw 102 then "My VIDEO Player"
       else "Video player - settings";
     IsWindowVisible := fun hw => negb (Z.eqb hw 101);
     ShowWindow := fun _ _ => inr tt;
     SetForegroundWindow := fun _ => inr tt |}.

(** The watch of the scenario with OCR fallback, before it has fired. *)
Definition ocr_watch : ImageWatch := set_triggered false armed_ocr_watch.

(** ** MainWindow: the threshold slider *)

(** [int(x)] of a float: the truncation towards zero, an error for an
    infinity or NaN. *)
Definition int_of_float (x : float) : res Z :=
  match Prim2SF x with
  | S754_zero _ => inr 0
  | S754_infinity _ => inl "cannot convert float infinity to integer"
  | S754_nan => inl "cannot convert float NaN to integer"
  | S754_finite s m e =>
      let mag := if (0 <=? e)%Z then Z.pos m * 2 ^ e else Z.pos m / 2 ^ (- e) in
      inr (if s then - mag else mag)
  end.

(** Line 309: the position [_on_select] gives the slider,
    [int(w.threshold * 100)]. *)
Definition slider_position (item : ImageWatch) : res Z :=
  int_of_float (threshold item * 100)%float.

(** The positions of the slider: [setRange(1, 100)]. *)
Definition slider_range : list Z := map Z.of_nat (seq 1 100).

(** A write of the UI thread with the slider, if it is one, in its range. *)
Definition slider_ok (op : ui_op) : bool :=
  match op with
  | on_sensitivity val => (1 <=? val)%Z && (val <=? 100)%Z
  | _ => true
  end.

(** A threshold is a number above 0 and at most 1. *)
Definition threshold_ok (t : float) : bool :=
  negb (PrimFloat.is_nan t) && (0 <? t)%float && (t <=? 1)%float.

(** The positions from which the slider comes back one lower. *)
Definition drifts (val : Z) : bool :=
  (val =? 29)%Z || (val =? 57)%Z || (val =? 58)%Z.

(** ** The iterations a run plays *)

(** The iterations up to and including the first during which the UI
    thread asks to stop. *)
Fixpoint played (envs : list tick_env) : list tick_env :=
  match envs with
  | [] => []
  | env :: rest =>
      env :: match stop_request env with
             | Some _ => []
             | None => played rest
             end
  end.

Definition stop_asked (envs : list tick_env) : bool :=
  existsb (fun env => is_Some (stop_request env)) envs.

(** Line 409 of [_on_toggle]: a new thread over the same list, whose
    watches are as the previous thread left them. *)
Definition restart (th : MonitorThread) : MonitorThread :=
  MonitorThread_default (watch_list th).

(** A tick during which the UI thread asks to stop, and two ticks after a
    restart, the watch on the screen all the time. *)
Definition first_session : list tick_env :=
  [ one_tick 1.0 1.03 (calm 0.85 (40, 40)) None;
    one_tick 1.1 1.13 (calm 0.85 (40, 40)) (Some 5%nat);
    one_tick 1.2 1.23 (calm 0.5 (7, 7)) None ].

Definition second_session : list tick_env :=
  [ one_tick 2.0 2.03 (calm 0.9 (40, 40)) None;
    one_tick 2.1 2.13 (calm 0.9 (41, 40)) None ].

(** ** MainWindow: the watches and their rows

    The window holds [self.watch_list] and the rows of [self.list_widget],
    whose data is the watch of the row.  Both refer to the same
    [ImageWatch] objects: [objects] are the objects created so far, and a
    reference is the place of an object among them. *)
Record MainWindow := {
  objects : list ImageWatch;
  window_watch_list : list nat;            (* self.watch_list *)
  list_widget : list (string * nat) }.     (* text, data(Qt.UserRole) *)

(** [MainWindow.__init__]: [self.watch_list = []], no row. *)
Definition MainWindow_init : MainWindow :=
  {| objects := []; window_watch_list := []; list_widget := [] |}.

(** [s.split(sep)], [sep] of one character. *)
Fixpoint split_on (sep : ascii) (s : string) : list string :=
  match s with
  | EmptyString => [EmptyString]
  | String c r =>
      if Ascii.eqb c sep then EmptyString :: split_on sep r
      else match split_on sep r with
           | part :: parts => String c part :: parts
           | [] => [String c EmptyString]
           end
  end.

(** [p.split('/')[-1]] *)
Definition basename (p : string) : string := last (split_on "/" p) "".

(** Lines 289-296: [_on_add], for the paths the file dialog returned.  An
    exception of [ImageWatch(p)] leaves the handler with the watches added
    so far. *)
Fixpoint on_add (b : backend) (paths : list string) (mw : MainWindow)
  : MainWindow * option exn :=
  match paths with
  | [] => (mw, None)
  | p :: rest =>
      match ImageWatch_init b p with
      | inl e => (mw, Some e)
      | inr item =>
          let ref := List.length (objects mw) in
          on_add b rest
            {| objects := objects mw ++ [item];
               window_watch_list := window_watch_list mw ++ [ref];
               list_widget := list_widget mw ++ [(basename p, ref)] |}
      end
  end.

(** [l] without its element at place [n]; [l] itself when there is none. *)
Definition without {A} (n : nat) (l : list A) : list A :=
  firstn n l ++ skipn (S n) l.

(** Lines 298-302: [_on_remove], [row] being [currentRow()].
    [list.pop] raises out of range, [takeItem] does not. *)
Definition on_remove (row : Z) (mw : MainWindow) : MainWindow * option exn :=
  if (0 <=? row)%Z then
    if (row <? Z.of_nat (List.length (window_watch_list mw)))%Z then
      ({| objects := objects mw;
          window_watch_list := without (Z.to_nat row) (window_watch_list mw);
          list_widget := without (Z.to_nat row) (list_widget mw) |}, None)
    else (mw, Some "pop index out of range")
  else (mw, None).

(** The object at a place replaced by [f] of it. *)
Fixpoint update {A} (n : nat) (f : A -> A) (l : list A) : list A :=
  match l, n with
  | [], _ => []
  | x :: r, O => f x :: r
  | x :: r, S m => x :: update m f r
  end.

(** The handlers that write one attribute of the current watch (lines
    321-324 and 342-401): [item = self.list_widget.currentItem()],
    [if item: item.data(Qt.UserRole).attribute = value].  [cur] is the row
    of the current item, if there is one. *)
Definition write_current (cur : option nat) (op : ui_op) (mw : MainWindow)
  : MainWindow :=
  match cur with
  | None => mw
  | Some row =>
      match nth_error (list_widget mw) row with
      | None => mw
      | Some (_, ref) =>
          {| objects := update ref (fun item => apply_ui item op) (objects mw);
             window_watch_list := window_watch_list mw;
             list_widget := list_widget mw |}
      end
  end.

(** [list(map(int, parts))]: the first exception ends it. *)
Fixpoint map_int (int_of_str : string -> res Z) (parts : list string)
  : res (list Z) :=
  match parts with
  | [] => inr []
  | p :: rest =>
      match int_of_str p with
      | inl e => inl e
      | inr n =>
          match map_int int_of_str rest with
          | inl e => inl e
          | inr ns => inr (n :: ns)
          end
      end
  end.

(** Lines 326-335: [_on_region_text], [text] being the text of the box and
    [int_of_str] Python's [int].  Whatever is raised is passed over. *)
Definition on_region_text (int_of_str : string -> res Z) (cur : option nat)
    (text : string) (mw : MainWindow) : MainWindow :=
  match cur with
  | None => mw
  | Some row =>
      match nth_error (list_widget mw) row with
      | None => mw
      | Some _ =>
          match map_int int_of_str (split_on "," text) with
          | inr [x; y; rw; rh] => write_current cur (set_region (x, y, rw, rh)) mw
          | _ => mw
          end
      end
  end.

(** Line 310 of [_on_select]: the text shown for the region, [str_of_int]
    being Python's [str]. *)
Definition region_text (str_of_int : Z -> string) (item : ImageWatch)
  : string :=
  match region item with
  | Some (x, y, rw, rh) => String.concat "," (map str_of_int [x; y; rw; rh])
  | None => ""
  end.

(** What a handler is called with. *)
Inductive ui_call :=
| Add (b : backend) (paths : list string)
| Remove (row : Z)
| Write (cur : option nat) (op : ui_op)
| RegionText (cur : option nat) (text : string).

Definition handle (int_of_str : string -> res Z) (mw : MainWindow)
    (c : ui_call) : MainWindow :=
  match c with
  | Add b paths => fst (on_add b paths mw)
  | Remove row => fst (on_remove row mw)
  | Write cur op => write_current cur op mw
  | RegionText cur text => on_region_text int_of_str cur text mw
  end.

(** The window after the calls, from the empty window on. *)
Definition session (int_of_str : string -> res Z) (calls : list ui_call)
  : MainWindow :=
  fold_left (handle int_of_str) calls MainWindow_init.

(** The watch of a row, and the watch at a place of [self.watch_list]. *)
Definition row_watch (mw : MainWindow) (row : nat) : option ImageWatch :=
  match nth_error (list_widget mw) row with
  | Some (_, ref) => nth_error (objects mw) ref
  | None => None
  end.

Definition listed_watch (mw : MainWindow) (i : nat) : option ImageWatch :=
  match nth_error (window_watch_list mw) i with
  | Some ref => nth_error (objects mw) ref
  | None => None
  end.

(** The rows and the list go together: row by row the same object, no
    object twice, every reference to an object that exists. *)
Definition aligned (mw : MainWindow) : Prop :=
  map snd (list_widget mw) = window_watch_list mw
  /\ NoDup (window_watch_list mw)
  /\ Forall (fun ref => (ref < List.length (objects mw))%nat)
            (window_watch_list mw).

(** The current row Qt hands to a handler is a row of the widget, or -1. *)
Definition qt_row (mw : MainWindow) (c : ui_call) : Prop :=
  match c with
  | Remove row => (-1 <= row < Z.of_nat (List.length (list_widget mw)))%Z
  | _ => True
  end.

(** What the handlers keep of a watch: its file, template and sizes, its
    flag, and that a region and a sound are set once they are. *)
Definition kept (a b : ImageWatch) : Prop :=
  path b = path a /\ template b = template a /\ h b = h a /\ w b = w a
  /\ _triggered b = _triggered a
  /\ (region a <> None -> region b <> None)
  /\ (sound a <> None -> truthy (sound b) = true).

(** The attributes of a watch are as a handler can have left them: a sound
    is not the empty string. *)
Definition well_set (item : ImageWatch) : Prop := sound item <> Some "".

(** The character [c] occurs in [s]; how often it does. *)
Fixpoint has_char (c : ascii) (s : string) : bool :=
  match s with
  | EmptyString => false
  | String d r => Ascii.eqb d c || has_char c r
  end.

Fixpoint count_char (c : ascii) (s : string) : nat :=
  match s with
  | EmptyString => O
  | String d r => ((if Ascii.eqb d c then 1 else 0) + count_char c r)%nat
  end.

(** [str] and [int] of Python on the decimal numerals, for the examples. *)
Definition decimal_str (n : Z) : string := NilZero.string_of_int (Z.to_int n).

Definition decimal_int (s : string) : res Z :=
  match NilZero.int_of_string s with
  | Some d => inr (Z.of_int d)
  | None => inl "invalid literal for int() with base 10"
  end.

(** A window with two watches, the second with a region, a sound and a
    click. *)
Definition two_rows : MainWindow :=
  session decimal_int
    [ Add (calm 0.5 (0, 0)) ["C:/img/a.png"; "C:/img/skip.png"];
      Write (Some 1%nat) (set_region (0, 0, 100, 100));
      Write (Some 1%nat) (browse_sound "C:/snd/ding.wav");
      Write (Some 1%nat) (on_click_toggle 2) ].

(** The watch [item] as created from another file. *)
Definition set_path (p : string) (item : ImageWatch) : ImageWatch :=
  {| path := p; template := template item; h := h item; w := w item;
     threshold := threshold item; region := region item;
     move_mouse := move_mouse item; mouse_speed := mouse_speed item;
     click := click item; press_key := press_key item; notify := notify item;
     sound := sound item; window_title := window_title item;
     mask := mask item; mask_path := mask_path item;
     ocr_fallback := ocr_fallback item; _triggered := _triggered item |}.

(** ** The order of the calls of a step *)

(** The stage of the body a call belongs to: capture, grayscale, match,
    OCR, the actions, the report of an exception. *)
Definition phase (ev : event) : nat :=
  match ev with
  | EGrab _ => 0
  | ECvtColor => 1
  | EMatchTemplate _ => 2
  | EOcr _ => 3
  | EError _ => 5
  | _ => 4
  end.

(** [a] may come before [b]: an earlier stage, or two calls of actions. *)
Definition before (a b : event) : Prop :=
  (phase a < phase b)%nat \/ (phase a = 4%nat /\ phase b = 4%nat).

(** The text is ASCII: on such text [lower] is [str.lower]. *)
Definition ascii_text (s : string) : bool :=
  forallb (fun c => Nat.ltb (nat_of_ascii c) 128) (list_ascii_of_string s).

(** The watch as each tick of the steps sees it, the UI thread's writes
    made. *)
Fixpoint life_items (lang : string) (steps : list step) (item : ImageWatch)
  : list ImageWatch :=
  match steps with
  | [] => []
  | s :: rest =>
      apply_uis (fst s) item
        :: life_items lang rest (fst (do_step lang item s))
  end.

(** The rising edges of what the ticks found, from the flag [flag] on: a
    tick that found the watch with the flag down; the flag follows what a
    tick found and stays where no tick got to line 110. *)
Fixpoint edges (flag : bool) (fs : list (option bool)) : list bool :=
  match fs with
  | [] => []
  | Some true :: r => negb flag :: edges true r
  | Some false :: r => false :: edges false r
  | None :: r => false :: edges flag r
  end.

(** A desktop without OCR engine, the template scoring [score]. *)
Definition ocr_down (score : float) (loc : Z * Z) : backend :=
  desktop score loc (inl "tesseract is not installed") (inr tt) (inr tt).

(** The five scores of the scenario on that desktop. *)
Definition ocr_down_scenario : list step :=
  [ ([], ocr_down 0.75 (3, 4)); ([], ocr_down 0.85 (40, 40));
    ([], ocr_down 0.85 (40, 40)); ([], ocr_down 0.5 (7, 7));
    ([], ocr_down 0.9 (41, 40)) ].

(** ** The list the thread shares with the window

    Line 409 hands the window's list object to the thread, and line 84
    takes a snapshot of it at every tick: what [_on_add] appended and
    [_on_remove] popped since the snapshot before is in the next one.  A
    watch popped during a tick is still processed in that tick; one
    appended is processed from the next snapshot on, with what the UI
    thread wrote to it until then. *)
Inductive list_op :=
| list_append (item : ImageWatch)      (* self.watch_list.append(w) *)
| list_pop (row : nat).                (* self.watch_list.pop(row) *)

(** [row] is [currentRow()], a place of the list. *)
Definition apply_list_op (wl : list ImageWatch) (op : list_op)
  : list ImageWatch :=
  match op with
  | list_append item => wl ++ [item]
  | list_pop row => without row wl
  end.

(** An iteration with the changes of the list since the snapshot before. *)
Record shared_env := {
  list_changes : list list_op;
  tick : tick_env }.

Definition unchanged (env : tick_env) : shared_env :=
  {| list_changes := []; tick := env |}.

(** Lines 83-138 over the shared list. *)
Definition shared_iteration (env : shared_env) (th : MonitorThread)
  : MonitorThread * list loop_event :=
  iteration (tick env)
    (set_watch_list (fold_left apply_list_op (list_changes env) (watch_list th))
       th).

(** Line 82 over the shared list. *)
Fixpoint shared_loop (envs : list shared_env) (th : MonitorThread)
  : ending * MonitorThread * list loop_event :=
  if running th then
    match envs with
    | [] => (StillRunning, th, [])
    | env :: rest =>
        let '(th1, l1) := shared_iteration env th in
        let '(e, th2, l2) := shared_loop rest th1 in
        (e, th2, LWhile true :: l1 ++ l2)
    end
  else (Returned, th, [LWhile false]).

(** Lines 79-138 over the shared list. *)
Definition shared_run (envs : list shared_env) (th : MonitorThread)
  : ending * MonitorThread * list loop_event :=
  let '(e, th', l) := shared_loop envs (set_running true th) in
  (e, th', LSetRunning :: l).

(** Two ticks, the first watch of the list removed between them. *)
Definition ticks_with_removal : list shared_env :=
  [ unchanged (one_tick 10.0 10.03 (calm 0.85 (40, 40)) None);
    {| list_changes := [list_pop 0];
       tick := one_tick 10.1 10.13 (calm 0.85 (40, 40)) None |} ].

(** * Properties *)

(** ** The monad and the action block *)

Lemma bind_ret_l {A B} (a : A) (k : A -> M B) (s : ImageWatch) :
  bind (ret a) k s = k a s.
Proof.
  unfold bind, ret. destruct (k a s) as [[r s2] t2]. reflexivity.
Qed.

Lemma bind_unit_r (m : M unit) (s : ImageWatch) :
  bind m (fun _ => ret tt) s = m s.
Proof.
  unfold bind, ret.
  destruct (m s) as [[[e | []] s1] t1]; rewrite ?app_nil_r; reflexivity.
Qed.

(** An action does not write the watch, and what it does is the same
    whatever the watch. *)
Lemma perform_pure (b : backend) (a : action) (s s' : ImageWatch) :
  perform b a s = (answer b a s', s, trace (perform b a s')).
Proof.
  unfold answer, outcome, trace.
  destruct a; simpl; try reflexivity.
  unfold bring_to_foreground, bind, call, ret.
  destruct (EnumWindows b) as [e | hwnds]; simpl; [reflexivity|].
  destruct (filter (enum_callback b t) hwnds) as [| hw tl]; simpl; [reflexivity|].
  destruct (ShowWindow b hw 5) as [e | []]; reflexivity.
Qed.

Lemma perform_all_spec (b : backend) (l : list action) (s : ImageWatch) :
  perform_all b l s
  = (match first_failure b s l with Some e => inl e | None => inr tt end,
     s, calls_of b s (reached b s l)).
Proof.
  induction l as [| a r IH]; simpl; [reflexivity|].
  unfold bind. rewrite (perform_pure b a s s).
  destruct (answer b a s) as [e | []]; simpl.
  - rewrite app_nil_r. reflexivity.
  - rewrite IH. reflexivity.
Qed.

Lemma when_then (b : backend) (c : bool) (a : action) (k : M unit)
    (l : list action) (s : ImageWatch) :
  (forall s', k s' = perform_all b l s') ->
  (when c (perform b a) ;;; k) s = perform_all b (opt c a ++ l) s.
Proof.
  intros Hk. destruct c; simpl.
  - unfold bind. destruct (perform b a s) as [[[e | []] s1] t1]; [reflexivity|].
    rewrite Hk. reflexivity.
  - rewrite bind_ret_l. apply Hk.
Qed.

Lemma when_last (b : backend) (c : bool) (a : action) (s : ImageWatch) :
  when c (perform b a) s = perform_all b (opt c a) s.
Proof.
  destruct c; simpl; [|reflexivity]. rewrite bind_unit_r. reflexivity.
Qed.

(** [fire] sets the flag and then performs the configured actions in
    order, up to the first that raises. *)
Lemma fire_plan (b : backend) (mon : monitor) (max_loc : Z * Z)
    (item : ImageWatch) :
  let item' := set_triggered true item in
  let '(cx, cy) := centre item mon max_loc in
  fire b mon max_loc item = perform_all b (configured item' cx cy) item'.
Proof.
  destruct max_loc as [x y]. unfold centre; simpl.
  unfold fire. unfold bind at 1. unfold put_triggered at 1.
  unfold bind at 1. unfold get at 1.
  set (item' := set_triggered true item).
  change (w item') with (w item). change (h item') with (h item).
  match goal with
  | |- match (match ?m item' with _ => _ end) with _ => _ end = ?rhs =>
      assert (E : m item' = rhs)
  end.
  { unfold configured.
    apply (when_then b (move_mouse item') (Move _ _ _)). intros s1.
    apply (when_then b (click item') Click). intros s2.
    apply (when_then b (truthy (press_key item')) (Press _)). intros s3.
    apply (when_then b (notify item') (Toast _ _)). intros s4.
    apply (when_then b (truthy (sound item')) (Sound _)). intros s5.
    apply (when_last b (truthy (window_title item')) (Window _)). }
  rewrite E.
  destruct (perform_all b _ item') as [[r s2] t2]. reflexivity.
Qed.

(** ** One watch of one tick *)

Create HintDb quiet.

Lemma quiet_ret {A} (a : A) : quiet (ret a).
Proof. intros s. split; [reflexivity | constructor]. Qed.

Lemma quiet_lift {A} (r : res A) : quiet (lift r).
Proof. intros s. split; [reflexivity | constructor]. Qed.

Lemma quiet_get : quiet get.
Proof. intros s. split; [reflexivity | constructor]. Qed.

Lemma quiet_call {A} (ev : event) (r : res A) :
  quiet_event ev -> quiet (call ev r).
Proof. intros H s. split; [reflexivity | repeat constructor; apply H]. Qed.

Lemma quiet_bind {A B} (m : M A) (k : A -> M B) :
  quiet m -> (forall a, quiet (k a)) -> quiet (bind m k).
Proof.
  intros Hm Hk s. unfold bind, final, trace.
  destruct (Hm s) as [Hs Ht]. unfold final, trace in Hs, Ht.
  destruct (m s) as [[[e | a] s1] t1]; simpl in *; subst s1.
  - split; [reflexivity | assumption].
  - destruct (Hk a s) as [Hs' Ht']. unfold final, trace in Hs', Ht'.
    destruct (k a s) as [[r s2] t2]; simpl in *.
    split; [assumption | apply Forall_app; split; assumption].
Qed.

#[local] Hint Resolve quiet_ret quiet_lift quiet_get quiet_call : quiet.
#[local] Hint Extern 1 (quiet_event _) => (split; reflexivity) : quiet.

(** Capture, match and OCR do not write the watch, make no call of an
    action and emit no error. *)
Lemma locate_quiet (b : backend) (lang : string) : quiet (locate b lang).
Proof.
  unfold locate.
  apply quiet_bind; [auto with quiet | intros item].
  apply quiet_bind; [auto with quiet | intros mon].
  apply quiet_bind; [auto with quiet | intros frame].
  apply quiet_bind; [auto with quiet | intros bgr].
  apply quiet_bind; [auto with quiet | intros gray].
  destruct (template item) as [templ |]; [| auto with quiet].
  apply quiet_bind; [auto with quiet | intros [max_val max_loc]].
  destruct (negb (threshold item <=? max_val)%float && ocr_fallback item);
    [| auto with quiet].
  apply quiet_bind; [auto with quiet | intros text].
  destruct (contains "skip" (lower text)); auto with quiet.
Qed.

Lemma locate_state (b : backend) (lang : string) (item : ImageWatch) :
  final (locate b lang item) = item.
Proof. apply locate_quiet. Qed.

(** What a step does, by the outcome of [locate]. *)
Lemma guarded_item_eq (b : backend) (lang : string) (item : ImageWatch) :
  guarded_item b lang item =
  let t := trace (locate b lang item) in
  match outcome (locate b lang item) with
  | inl e => (item, t ++ [EError e])
  | inr None => (item, t)
  | inr (Some (mon, found, max_loc)) =>
      if found then
        if _triggered item then (item, t)
        else
          let item' := set_triggered true item in
          let plan :=
            configured item' (fst (centre item mon max_loc))
                             (snd (centre item mon max_loc)) in
          (item',
           t ++ calls_of b item' (reached b item' plan)
             ++ match first_failure b item' plan with
                | Some e => [EError e]
                | None => []
                end)
      else (set_triggered false item, t)
  end.
Proof.
  pose proof (locate_state b lang item) as Hs.
  unfold guarded_item, process_item, bind.
  destruct (locate b lang item) as [[r s1] t1].
  unfold final, outcome, trace in *; simpl in *. subst s1.
  destruct r as [e | [[[mon found] max_loc] |]]; simpl; try reflexivity.
  - unfold transition, bind, get.
    destruct found; simpl.
    + destruct (_triggered item); simpl.
      * rewrite app_nil_r. reflexivity.
      * pose proof (fire_plan b mon max_loc item) as Hf. simpl in Hf.
        destruct (centre item mon max_loc) as [cx cy]. simpl.
        rewrite Hf, perform_all_spec.
        destruct (first_failure b _ _); simpl.
        -- rewrite <- app_assoc. reflexivity.
        -- rewrite !app_nil_r. reflexivity.
    + unfold put_triggered. rewrite app_nil_r. reflexivity.
  - rewrite app_nil_r. reflexivity.
Qed.

Lemma quiet_not_fired (t : list event) :
  Forall quiet_event t -> fired t = false.
Proof.
  unfold fired. induction 1 as [| ev t [Ha _] _ IH]; simpl; [reflexivity|].
  rewrite Ha, IH. reflexivity.
Qed.

Lemma locate_not_fired (b : backend) (lang : string) (item : ImageWatch) :
  fired (trace (locate b lang item)) = false.
Proof. apply quiet_not_fired, locate_quiet. Qed.

Lemma fired_app (t1 t2 : list event) :
  fired (t1 ++ t2) = fired t1 || fired t2.
Proof. apply existsb_app. Qed.

(** The flag after a step is [found] when the body reached line 110, and
    what it was before otherwise. *)
Lemma step_flag (b : backend) (lang : string) (item : ImageWatch) :
  _triggered (fst (guarded_item b lang item))
  = match found_of b lang item with
    | Some f => f
    | None => _triggered item
    end.
Proof.
  rewrite guarded_item_eq. unfold found_of. simpl.
  destruct (outcome (locate b lang item)) as [e | [[[mon found] loc] |]];
    simpl; try reflexivity.
  destruct found; simpl; [| reflexivity].
  destruct (_triggered item) eqn:E; simpl; [assumption | reflexivity].
Qed.

(** A step writes no attribute but [_triggered]. *)
Lemma step_frame (b : backend) (lang : string) (item : ImageWatch) :
  fst (guarded_item b lang item)
  = set_triggered (_triggered (fst (guarded_item b lang item))) item.
Proof.
  rewrite guarded_item_eq. simpl.
  destruct (outcome (locate b lang item)) as [e | [[[mon found] loc] |]];
    simpl; try (destruct item; reflexivity).
  destruct found; simpl; [| reflexivity].
  destruct (_triggered item) eqn:E; simpl; [| reflexivity].
  destruct item; simpl in *; subst; reflexivity.
Qed.

(** A step that fired found the watch with the flag down. *)
Lemma step_fired (b : backend) (lang : string) (item : ImageWatch) :
  fired (snd (guarded_item b lang item)) = true ->
  found_of b lang item = Some true /\ _triggered item = false.
Proof.
  rewrite guarded_item_eq. unfold found_of. simpl.
  pose proof (locate_not_fired b lang item) as Hq.
  destruct (outcome (locate b lang item)) as [e | [[[mon found] loc] |]];
    simpl; rewrite ?fired_app, ?Hq; simpl; try discriminate.
  destruct found; simpl; rewrite ?Hq; try discriminate.
  destruct (_triggered item); simpl; rewrite ?Hq; try discriminate.
  auto.
Qed.

(** The UI thread's writes leave [_triggered] and the template alone. *)
Lemma apply_uis_frame (ops : list ui_op) (item : ImageWatch) :
  _triggered (apply_uis ops item) = _triggered item
  /\ template (apply_uis ops item) = template item
  /\ h (apply_uis ops item) = h item /\ w (apply_uis ops item) = w item.
Proof.
  unfold apply_uis. revert item.
  induction ops as [| op ops IH]; intros item; simpl; [auto|].
  destruct (IH (apply_ui item op)) as (H1 & H2 & H3 & H4).
  rewrite H1, H2, H3, H4.
  destruct op; simpl; auto; destruct (String.eqb file ""); auto.
Qed.

(** ** The edge trigger *)

Lemma perform_fires (b : backend) (a : action) (s : ImageWatch) :
  fired (trace (perform b a s)) = true.
Proof.
  destruct a; try reflexivity.
  unfold trace; simpl. unfold bring_to_foreground, bind, call.
  destruct (EnumWindows b) as [e | hwnds]; [reflexivity|].
  destruct (filter _ hwnds) as [| hw tl]; simpl; [reflexivity|].
  destruct (ShowWindow b hw 5) as [e | []]; reflexivity.
Qed.

Lemma configured_nonempty (item : ImageWatch) (cx cy : Z) :
  has_action item = true ->
  exists a l, configured (set_triggered true item) cx cy = a :: l.
Proof.
  unfold has_action, configured; simpl.
  destruct (move_mouse item); [eexists; eexists; reflexivity|].
  destruct (click item); [eexists; eexists; reflexivity|].
  destruct (truthy (press_key item)); [eexists; eexists; reflexivity|].
  destruct (notify item); [eexists; eexists; reflexivity|].
  destruct (truthy (sound item)); [eexists; eexists; reflexivity|].
  destruct (truthy (window_title item)); [eexists; eexists; reflexivity|].
  discriminate.
Qed.

(** On a rising edge a watch with an action configured fires. *)
Lemma rising_edge_fires (b : backend) (lang : string) (item : ImageWatch) :
  found_of b lang item = Some true -> _triggered item = false ->
  has_action item = true ->
  fired (snd (guarded_item b lang item)) = true.
Proof.
  intros Hf Ht Ha. rewrite guarded_item_eq. unfold found_of in Hf.
  cbv zeta.
  destruct (outcome (locate b lang item)) as [e | [[[mon found] loc] |]];
    try discriminate.
  injection Hf as ->. rewrite Ht. cbv beta iota.
  destruct (configured_nonempty item (fst (centre item mon loc))
              (snd (centre item mon loc)) Ha) as (a & l & ->).
  unfold snd at 1. rewrite !fired_app.
  unfold reached; fold reached. unfold calls_of, flat_map; fold flat_map.
  rewrite fired_app, perform_fires.
  rewrite orb_true_r. reflexivity.
Qed.

Lemma fires_cons (t : list event) (ts : list (list event)) :
  fires (t :: ts) = ((if fired t then 1 else 0) + fires ts)%nat.
Proof. unfold fires. simpl. destruct (fired t); reflexivity. Qed.

(** Between two resets of the flag a watch fires at most once, and not at
    all when the flag is up. *)
Lemma unbroken_fires (lang : string) (steps : list step) :
  forall item, unbroken lang steps item = true ->
  (fires (snd (watch_life lang steps item)) <= 1)%nat
  /\ (_triggered item = true -> fires (snd (watch_life lang steps item)) = 0%nat).
Proof.
  induction steps as [| s rest IH]; intros item Hu; simpl.
  - split; [unfold fires; simpl; lia | reflexivity].
  - simpl in Hu. unfold do_step in *.
    set (item0 := apply_uis (fst s) item) in *.
    assert (H0 : _triggered item0 = _triggered item)
      by apply apply_uis_frame.
    pose proof (step_flag (snd s) lang item0) as Hflag.
    pose proof (step_fired (snd s) lang item0) as Hfired.
    destruct (guarded_item (snd s) lang item0) as [item1 t]; simpl in *.
    assert (Hu' : unbroken lang rest item1 = true)
      by (destruct (found_of (snd s) lang item0) as [[|]|]; congruence).
    destruct (IH item1 Hu') as [IH1 IH2].
    destruct (watch_life lang rest item1) as [item2 ts]; simpl in *.
    rewrite fires_cons.
    destruct (fired t) eqn:Ef.
    + destruct (Hfired eq_refl) as [Hf Ht]. rewrite Hf in Hflag.
      rewrite (IH2 Hflag). split; [lia | congruence].
    + split; [exact IH1 |]. intros Ht. apply IH2.
      rewrite Hflag.
      destruct (found_of (snd s) lang item0) as [[|]|]; congruence.
Qed.

Lemma all_found_unbroken (lang : string) (steps : list step) :
  forall item, all_found lang steps item = true -> unbroken lang steps item = true.
Proof.
  induction steps as [| s rest IH]; intros item H; simpl in *; [reflexivity|].
  destruct (found_of (snd s) lang (apply_uis (fst s) item)) as [[|]|];
    try discriminate.
  apply IH, H.
Qed.

(** ** The threshold and the OCR gate *)

(** [x >= x] holds for every float but NaN. *)
Lemma leb_refl (x : float) :
  PrimFloat.is_nan x = false -> (x <=? x)%float = true.
Proof.
  unfold PrimFloat.is_nan. rewrite negb_false_iff.
  rewrite eqb_spec, leb_spec. unfold SFeqb, SFleb.
  destruct (SFcompare (Prim2SF x) (Prim2SF x)) as [[| |] |];
    try discriminate; reflexivity.
Qed.

Ltac run_monad :=
  unfold bind, get, lift, call, ret, when, put_triggered; simpl.

(** [locate] once the capture succeeded, for a watch with a template. *)
Section Captured.

Variables (b : backend) (lang : string) (item : ImageWatch).
Variables (mon : monitor) (frame bgr gray templ : ndarray).
Hypothesis Hmon : select_mon b item = inr mon.
Hypothesis Hgrab : sct_grab b mon = inr frame.
Hypothesis Hbgr : first3 frame = inr bgr.
Hypothesis Hgray : grayscale b bgr = inr gray.
Hypothesis Htempl : template item = Some templ.

(** The matcher answered. *)
Lemma locate_matched (score : float) (loc : Z * Z) :
  cv2_matchTemplate b gray templ (mask item) = inr (score, loc) ->
  locate b lang item =
  let pre := [EGrab mon; ECvtColor; EMatchTemplate (is_Some (mask item))] in
  if negb (threshold item <=? score)%float && ocr_fallback item then
    match image_to_string b frame lang with
    | inl e => (inl e, item, pre ++ [EOcr lang])
    | inr text =>
        (inr (Some (if contains "skip" (lower text)
                    then (mon, true, (mon_width mon / 2, mon_height mon / 2))
                    else (mon, false, loc))),
         item, pre ++ [EOcr lang])
    end
  else (inr (Some (mon, (threshold item <=? score)%float, loc)), item, pre).
Proof.
  intros Hmatch. unfold locate. run_monad.
  rewrite Hmon, Hgrab, Hbgr, Hgray, Htempl, Hmatch. simpl.
  destruct (threshold item <=? score)%float; simpl; [reflexivity|].
  destruct (ocr_fallback item); simpl; [| reflexivity].
  destruct (image_to_string b frame lang) as [e | text]; simpl;
    [reflexivity|].
  destruct (contains "skip" (lower text)); reflexivity.
Qed.

(** The matcher raised. *)
Lemma locate_rejected (e : exn) :
  cv2_matchTemplate b gray templ (mask item) = inl e ->
  locate b lang item
  = (inl e, item,
     [EGrab mon; ECvtColor; EMatchTemplate (is_Some (mask item))]).
Proof.
  intros Hmatch. unfold locate. run_monad.
  rewrite Hmon, Hgrab, Hbgr, Hgray, Htempl, Hmatch. reflexivity.
Qed.

End Captured.

(** ** The edge trigger over the ticks *)

(** A watch with an action configured fires exactly on a rising edge. *)
Lemma fired_by_found (b : backend) (lang : string) (item : ImageWatch) :
  has_action item = true ->
  fired (snd (guarded_item b lang item))
  = match found_of b lang item with
    | Some true => negb (_triggered item)
    | _ => false
    end.
Proof.
  intros Ha.
  pose proof (step_fired b lang item) as Hfired.
  pose proof (rising_edge_fires b lang item) as Hrise.
  destruct (fired (snd (guarded_item b lang item))) eqn:E.
  - destruct (Hfired eq_refl) as [H1 H2]. rewrite H1, H2. reflexivity.
  - destruct (found_of b lang item) as [[|] |]; try reflexivity.
    destruct (_triggered item); [reflexivity|].
    discriminate (Hrise eq_refl eq_refl Ha).
Qed.

Lemma life_fired (lang : string) (steps : list step) :
  forall item,
    Forall (fun it => has_action it = true) (life_items lang steps item) ->
    map fired (snd (watch_life lang steps item))
    = edges (_triggered item) (life_found lang steps item).
Proof.
  induction steps as [| s rest IH]; intros item Hact; simpl; [reflexivity|].
  simpl in Hact. inversion Hact as [| ? ? Ha Hrest]; subst.
  unfold do_step in *.
  set (item0 := apply_uis (fst s) item) in *.
  assert (H0 : _triggered item0 = _triggered item)
    by (subst item0; apply apply_uis_frame).
  pose proof (step_flag (snd s) lang item0) as Hflag.
  pose proof (fired_by_found (snd s) lang item0 Ha) as Hf.
  specialize (IH (fst (guarded_item (snd s) lang item0)) Hrest).
  destruct (guarded_item (snd s) lang item0) as [item1 t]; simpl in *.
  destruct (watch_life lang rest item1) as [item2 ts]; simpl in *.
  rewrite Hf, IH, Hflag, H0.
  destruct (found_of (snd s) lang item0) as [[|] |]; reflexivity.
Qed.

(** What a tick finds by the score alone: with the capture done and OCR
    fallback off, or on and reading a text without the keyword. *)
Lemma found_by_score (b : backend) (lang : string) (item : ImageWatch)
    (mon : monitor) (frame bgr gray templ : ndarray) (score : float)
    (loc : Z * Z) :
  select_mon b item = inr mon -> sct_grab b mon = inr frame ->
  first3 frame = inr bgr -> grayscale b bgr = inr gray ->
  template item = Some templ ->
  cv2_matchTemplate b gray templ (mask item) = inr (score, loc) ->
  (ocr_fallback item = false
   \/ exists text, image_to_string b frame lang = inr text
                   /\ contains "skip" (lower text) = false) ->
  found_of b lang item = Some (threshold item <=? score)%float.
Proof.
  intros Hmon Hgrab Hbgr Hgray Htempl Hmatch Hocr. unfold found_of.
  rewrite (locate_matched b lang item mon frame bgr gray templ
             Hmon Hgrab Hbgr Hgray Htempl score loc Hmatch).
  cbv zeta.
  destruct (threshold item <=? score)%float; simpl; [reflexivity|].
  destruct Hocr as [-> | (text & -> & ->)]; [reflexivity|].
  destruct (ocr_fallback item); reflexivity.
Qed.

(** C1 does not hold as stated: with OCR fallback set and no OCR engine,
    the scores 0.75, 0.85, 0.85, 0.5, 0.9 against the threshold 0.8 are
    below, above, above, below, above, yet the watch fires at tick 2 only.
    On tick 4 the template scores below and OCR reports nothing, but the
    OCR call raises, the body does not get to line 133, and the flag stays
    up over tick 5. *)
Lemma C1_counterexample :
  map (fun sc => (threshold ocr_watch <=? sc)%float)
      [0.75; 0.85; 0.85; 0.5; 0.9]%float
  = [false; true; true; false; true]
  /\ has_action ocr_watch = true /\ _triggered ocr_watch = false
  /\ life_found "eng" ocr_down_scenario ocr_watch
     = [None; Some true; Some true; None; Some true]
  /\ map fired (snd (watch_life "eng" ocr_down_scenario ocr_watch))
     = [false; true; false; false; false]
  /\ _triggered (fst (watch_life "eng" (firstn 4 ocr_down_scenario) ocr_watch))
     = true.
Proof. vm_compute. repeat split. Qed.

(** C1, amended: detection is edge-triggered over the ticks that get to
    line 110.  A tick makes calls of actions only when it found the watch
    (the value of [found] at line 110) with the flag [_triggered] down, and
    the flag is up after it; a tick that found the watch leaves the flag
    up, firing when it was down and an action is configured and not firing
    when it was up; a tick that got to line 110 without finding it leaves
    the flag down and does not fire; a tick that raised before line 110
    (capture, grayscale, match or OCR) or skipped a watch without template
    leaves the flag as it was and does not fire.  Over one episode of ticks
    that all find the watch at most one tick fires, and for a watch with an
    action configured the ticks that fire are exactly the rising edges of
    [found].  So five ticks that find every such watch as not found, found,
    found, not found, found fire at ticks 2 and 5 and at no other; a tick
    whose capture succeeds finds the watch by the score against the
    threshold when OCR fallback is off or reads no keyword.  The scores
    0.75, 0.85, 0.85, 0.5, 0.9 against the threshold 0.8 do so. *)
Theorem C1_edge_triggered (lang : string) :
  (forall (b : backend) (item : ImageWatch),
     let item' := fst (guarded_item b lang item) in
     let t := snd (guarded_item b lang item) in
     (fired t = true ->
      found_of b lang item = Some true /\ _triggered item = false
      /\ _triggered item' = true)
     /\ (found_of b lang item = Some true ->
         _triggered item' = true
         /\ (_triggered item = false -> has_action item = true -> fired t = true)
         /\ (_triggered item = true -> fired t = false))
     /\ (found_of b lang item = Some false ->
         _triggered item' = false /\ fired t = false)
     /\ (found_of b lang item = None ->
         _triggered item' = _triggered item /\ fired t = false))
  /\ (forall (steps : list step) (item : ImageWatch),
        all_found lang steps item = true ->
        (fires (snd (watch_life lang steps item)) <= 1)%nat)
  /\ (forall (steps : list step) (item : ImageWatch),
        Forall (fun it => has_action it = true) (life_items lang steps item) ->
        map fired (snd (watch_life lang steps item))
        = edges (_triggered item) (life_found lang steps item))
  /\ (forall (steps : list step) (item : ImageWatch),
        Forall (fun it => has_action it = true) (life_items lang steps item) ->
        life_found lang steps item
        = [Some false; Some true; Some true; Some false; Some true] ->
        map fired (snd (watch_life lang steps item))
        = [false; true; false; false; true])
  /\ (forall (b : backend) (item : ImageWatch) (mon : monitor)
             (frame bgr gray templ : ndarray) (score : float) (loc : Z * Z),
        select_mon b item = inr mon -> sct_grab b mon = inr frame ->
        first3 frame = inr bgr -> grayscale b bgr = inr gray ->
        template item = Some templ ->
        cv2_matchTemplate b gray templ (mask item) = inr (score, loc) ->
        (ocr_fallback item = false
         \/ exists text, image_to_string b frame lang = inr text
                         /\ contains "skip" (lower text) = false) ->
        found_of b lang item = Some (threshold item <=? score)%float)
  /\ life_found lang scenario watch20
     = [Some false; Some true; Some true; Some false; Some true]
  /\ map fired (snd (watch_life lang scenario watch20))
     = [false; true; false; false; true].
Proof.
  split; [| split; [| split; [| split; [| split; [| split]]]]].
  - intros b item item' t. subst item' t.
    pose proof (step_flag b lang item) as Hflag.
    pose proof (step_fired b lang item) as Hfired.
    split; [| split; [| split]].
    + intros Hf. destruct (Hfired Hf) as [H1 H2].
      rewrite H1 in Hflag. auto.
    + intros Hf. rewrite Hf in Hflag. split; [exact Hflag | split].
      * intros Ht Ha. apply rising_edge_fires; assumption.
      * intros Ht. destruct (fired (snd (guarded_item b lang item)));
          [| reflexivity].
        destruct (Hfired eq_refl) as [_ H2]. congruence.
    + intros Hf. rewrite Hf in Hflag. split; [exact Hflag |].
      destruct (fired (snd (guarded_item b lang item))); [| reflexivity].
      destruct (Hfired eq_refl) as [H1 _]. congruence.
    + intros Hf. rewrite Hf in Hflag. split; [exact Hflag |].
      destruct (fired (snd (guarded_item b lang item))); [| reflexivity].
      destruct (Hfired eq_refl) as [H1 _]. congruence.
  - intros steps item H.
    apply unbroken_fires, all_found_unbroken, H.
  - intros steps item Hact. apply life_fired, Hact.
  - intros steps item Hact Hf.
    rewrite (life_fired lang steps item Hact), Hf.
    destruct (_triggered item); reflexivity.
  - intros b item mon frame bgr gray templ score loc.
    apply found_by_score.
  - vm_compute. reflexivity.
  - vm_compute. reflexivity.
Qed.

Lemma C1_edge_triggered_witness :
  found_of (calm 0.85 (40, 40)) "eng" watch20 = Some true
  /\ _triggered (fst (guarded_item (calm 0.85 (40, 40)) "eng" watch20)) = true
  /\ fired (snd (guarded_item (calm 0.85 (40, 40)) "eng" watch20)) = true
  /\ Nat.le (fires (snd (watch_life "eng"
                           [([], calm 0.85 (40, 40)); ([], calm 0.9 (41, 40))]
                           watch20))) 1%nat
  /\ map fired (snd (watch_life "eng"
                       [([], office); ([on_ocr_toggle 2], office);
                        ([], office); ([on_ocr_toggle 0], office);
                        ([on_ocr_toggle 2; on_sensitivity 40], office)]
                       watch20))
     = [false; true; false; false; true]
  /\ _triggered (fst (guarded_item no_tesseract "eng" armed_ocr_watch))
     = _triggered armed_ocr_watch.
Proof.
  destruct (C1_edge_triggered "eng") as (Hstep & Hep & _ & Hfive & _).
  destruct (Hstep (calm 0.85 (40, 40)) watch20) as (_ & Hfound & _).
  destruct (Hstep no_tesseract armed_ocr_watch) as (_ & _ & _ & Hraise).
  assert (Hf : found_of (calm 0.85 (40, 40)) "eng" watch20 = Some true)
    by (vm_compute; reflexivity).
  destruct (Hfound Hf) as (Hup & Hfire & _).
  split; [exact Hf | split; [exact Hup | split; [| split; [| split]]]].
  - apply Hfire; vm_compute; reflexivity.
  - apply Hep. vm_compute. reflexivity.
  - apply Hfive.
    + repeat constructor.
    + vm_compute. reflexivity.
  - apply Hraise. vm_compute. reflexivity.
Defined.


(** On every tick, OCR is called only after the matcher answered with a
    score below the threshold, for a watch with OCR fallback. *)
Lemma ocr_only_after_miss (b : backend) (lang : string) (item : ImageWatch) :
  existsb is_ocr (trace (locate b lang item)) = true ->
  exists gray templ score loc,
    template item = Some templ
    /\ cv2_matchTemplate b gray templ (mask item) = inr (score, loc)
    /\ (threshold item <=? score)%float = false
    /\ ocr_fallback item = true.
Proof.
  unfold locate, trace. run_monad.
  destruct (select_mon b item) as [e | m]; simpl; [discriminate|].
  destruct (sct_grab b m) as [e | frame]; simpl; [discriminate|].
  destruct (first3 frame) as [e | bgr]; simpl; [discriminate|].
  destruct (grayscale b bgr) as [e | gray]; simpl; [discriminate|].
  destruct (template item) as [templ |]; simpl; [| discriminate].
  destruct (cv2_matchTemplate b gray templ (mask item)) as [e | [score loc]] eqn:Em;
    simpl; [discriminate|].
  destruct (threshold item <=? score)%float eqn:Ea; simpl; [discriminate|].
  destruct (ocr_fallback item) eqn:Eo; simpl; [| discriminate].
  intros _. exists gray, templ, score, loc. auto.
Qed.

(** C2: on a tick whose capture succeeded and whose matcher answered
    [(score, loc)] for a watch with a template, [found] is
    [score >= threshold]: when the comparison holds the watch is found at
    [loc] and OCR is not called; OCR is called exactly when the comparison
    fails and [ocr_fallback] is set, and [found] is then whether the text
    has the keyword; without [ocr_fallback] [found] is the comparison; a
    score equal to the threshold counts as found. *)
Theorem C2_threshold_and_ocr_gate (b : backend) (lang : string)
    (item : ImageWatch) (mon : monitor) (frame bgr gray templ : ndarray)
    (score : float) (loc : Z * Z) :
  select_mon b item = inr mon -> sct_grab b mon = inr frame ->
  first3 frame = inr bgr -> grayscale b bgr = inr gray ->
  template item = Some templ ->
  cv2_matchTemplate b gray templ (mask item) = inr (score, loc) ->
  let above := (threshold item <=? score)%float in
  let ocr_called := existsb is_ocr (trace (locate b lang item)) in
  (above = true ->
   outcome (locate b lang item) = inr (Some (mon, true, loc))
   /\ ocr_called = false)
  /\ (ocr_called = true <-> above = false /\ ocr_fallback item = true)
  /\ (ocr_fallback item = false -> found_of b lang item = Some above)
  /\ (forall text, above = false -> ocr_fallback item = true ->
      image_to_string b frame lang = inr text ->
      found_of b lang item = Some (contains "skip" (lower text)))
  /\ (score = threshold item -> PrimFloat.is_nan (threshold item) = false ->
      found_of b lang item = Some true /\ ocr_called = false).
Proof.
  intros Hmon Hgrab Hbgr Hgray Htempl Hmatch above ocr_called.
  subst above ocr_called. unfold found_of.
  rewrite (locate_matched b lang item mon frame bgr gray templ
             Hmon Hgrab Hbgr Hgray Htempl score loc Hmatch).
  cbv zeta.
  assert (Hpre : forall m, existsb is_ocr [EGrab mon; ECvtColor; EMatchTemplate m] = false)
    by reflexivity.
  repeat split.
  - rewrite H. reflexivity.
  - rewrite H. reflexivity.
  - destruct (threshold item <=? score)%float; [discriminate | reflexivity].
  - destruct (threshold item <=? score)%float; simpl in *; [discriminate|].
    destruct (ocr_fallback item); [reflexivity | discriminate].
  - intros [Ha Ho]. rewrite Ha, Ho. simpl.
    destruct (image_to_string b frame lang); reflexivity.
  - intros Ho. rewrite Ho, andb_false_r. reflexivity.
  - intros text Ha Ho Ht. rewrite Ha, Ho, Ht. simpl.
    destruct (contains "skip" (lower text)); reflexivity.
  - subst score. rewrite (leb_refl _ H0). reflexivity.
  - subst score. rewrite (leb_refl _ H0). reflexivity.
Qed.

Lemma C2_threshold_and_ocr_gate_witness :
  found_of (calm 0.8 (40, 40)) "eng" watch20 = Some true
  /\ existsb is_ocr (trace (locate (calm 0.8 (40, 40)) "eng" watch20)) = false.
Proof.
  pose (mon := {| mon_left := 0; mon_top := 0; mon_width := 100; mon_height := 100 |}).
  pose (frame := zeros [100; 100; 4]).
  pose (bgr := {| shape := [100; 100; 3]; entry := entry frame |}).
  pose proof (C2_threshold_and_ocr_gate (calm 0.8 (40, 40)) "eng" watch20
                mon frame bgr (zeros [100; 100]) (zeros [20; 20])
                0.8%float (40, 40)) as H.
  do 6 (match type of H with
        | ?P -> _ => assert (Hp : P) by (vm_compute; reflexivity);
                     specialize (H Hp); clear Hp
        end).
  destruct H as (_ & _ & _ & _ & H).
  apply H; vm_compute; reflexivity.
Defined.

(** ** A template larger than the frame *)

Lemma desktop_contract (score : float) (loc : Z * Z) (ocr : res string)
    (move clk : res unit) :
  cv2_contract (desktop score loc ocr move clk).
Proof.
  intros img templ m H. simpl. rewrite H. eexists. reflexivity.
Qed.

(** With a mask every oversized template is rejected, and without one a
    template that exceeds the frame in one dimension and is smaller in the
    other. *)
Lemma oversized_rejected (img templ : ndarray) (m : option ndarray) :
  oversized img templ = true ->
  (is_Some m = true
   \/ (rows templ <? rows img)%Z = true \/ (cols templ <? cols img)%Z = true) ->
  cv2_accepts img templ m = false.
Proof.
  unfold oversized, cv2_accepts. intros Ho Hc.
  apply orb_true_iff in Ho.
  destruct m as [mk |]; simpl in Hc.
  - apply andb_false_iff. rewrite !Z.leb_gt.
    destruct Ho as [Ho | Ho]; apply Z.ltb_lt in Ho; lia.
  - destruct Hc as [Hc | Hc]; [discriminate|].
    apply orb_false_iff. rewrite !andb_false_iff, !Z.leb_gt.
    destruct Ho as [Ho | Ho]; apply Z.ltb_lt in Ho;
      destruct Hc as [Hc | Hc]; apply Z.ltb_lt in Hc; lia.
Qed.

(** C3 does not hold as stated: the template of [tall_watch] is taller
    than the captured frame, cv2.matchTemplate raises, and the tick reports
    the exception as an error event. *)
Lemma C3_counterexample :
  oversized (zeros [100; 100]) (zeros [200; 20]) = true
  /\ snd (guarded_item (calm 0.9 (0, 0)) "eng" tall_watch)
     = [EGrab region100; ECvtColor; EMatchTemplate false;
        EError "(-215:Assertion failed) in function 'matchTemplate'"]
  /\ existsb is_error (snd (guarded_item (calm 0.9 (0, 0)) "eng" tall_watch))
     = true.
Proof. vm_compute. repeat split. Qed.

(** C3, amended: when the template is larger than the frame and
    cv2.matchTemplate rejects the shapes (with a mask always; without one
    when the template exceeds the frame in one dimension and is smaller in
    the other), the tick makes no call of an action and leaves the watch,
    its flag included, as it was, and the exception is reported as one
    error event. *)
Theorem C3_oversized_template_reported (b : backend) (lang : string)
    (item : ImageWatch) (mon : monitor) (frame bgr gray templ : ndarray) :
  cv2_contract b ->
  select_mon b item = inr mon -> sct_grab b mon = inr frame ->
  first3 frame = inr bgr -> grayscale b bgr = inr gray ->
  template item = Some templ ->
  oversized gray templ = true ->
  (is_Some (mask item) = true
   \/ (rows templ <? rows gray)%Z = true \/ (cols templ <? cols gray)%Z = true) ->
  exists e,
    cv2_matchTemplate b gray templ (mask item) = inl e
    /\ guarded_item b lang item
       = (item, [EGrab mon; ECvtColor; EMatchTemplate (is_Some (mask item));
                 EError e])
    /\ fired (snd (guarded_item b lang item)) = false.
Proof.
  intros Hc Hmon Hgrab Hbgr Hgray Htempl Ho Hm.
  destruct (Hc gray templ (mask item) (oversized_rejected _ _ _ Ho Hm))
    as [e He].
  exists e. split; [exact He|].
  assert (E : guarded_item b lang item
              = (item, [EGrab mon; ECvtColor;
                        EMatchTemplate (is_Some (mask item)); EError e])).
  { rewrite guarded_item_eq.
    rewrite (locate_rejected b lang item mon frame bgr gray templ
               Hmon Hgrab Hbgr Hgray Htempl e He).
    reflexivity. }
  rewrite E. split; reflexivity.
Qed.

Lemma C3_oversized_template_reported_witness :
  exists e,
    cv2_matchTemplate (calm 0.9 (0, 0)) (zeros [100; 100]) (zeros [200; 20])
      (mask tall_watch) = inl e
    /\ guarded_item (calm 0.9 (0, 0)) "eng" tall_watch
       = (tall_watch,
          [EGrab region100; ECvtColor;
           EMatchTemplate (is_Some (mask tall_watch)); EError e])
    /\ fired (snd (guarded_item (calm 0.9 (0, 0)) "eng" tall_watch)) = false.
Proof.
  apply (C3_oversized_template_reported (calm 0.9 (0, 0)) "eng" tall_watch
           region100 (zeros [100; 100; 4])
           {| shape := [100; 100; 3]; entry := fun _ => 0 |}
           (zeros [100; 100]) (zeros [200; 20])).
  - apply desktop_contract.
  - reflexivity.
  - reflexivity.
  - reflexivity.
  - reflexivity.
  - reflexivity.
  - reflexivity.
  - right. right. reflexivity.
Defined.

(** ** A failing action *)

Lemma reached_failure (b : backend) (s : ImageWatch) (done : list action)
    (a : action) (rest : list action) (e : exn) :
  (forall a', In a' done -> answer b a' s = inr tt) ->
  answer b a s = inl e ->
  reached b s (done ++ a :: rest) = done ++ [a]
  /\ first_failure b s (done ++ a :: rest) = Some e.
Proof.
  intros Hdone Ha.
  induction done as [| d done IH]; simpl.
  - rewrite Ha. split; reflexivity.
  - rewrite (Hdone d (or_introl eq_refl)).
    destruct IH as [IH1 IH2]; [intros a' Hin; apply Hdone; right; exact Hin|].
    rewrite IH1, IH2. split; reflexivity.
Qed.

Lemma reached_success (b : backend) (s : ImageWatch) (l : list action) :
  (forall a, In a l -> answer b a s = inr tt) ->
  reached b s l = l /\ first_failure b s l = None.
Proof.
  intros Hl. induction l as [| a l IH]; simpl; [split; reflexivity|].
  rewrite (Hl a (or_introl eq_refl)).
  destruct IH as [IH1 IH2]; [intros a' Hin; apply Hl; right; exact Hin|].
  rewrite IH1, IH2. split; reflexivity.
Qed.

(** C4 does not hold as stated: the watch has pointer move and click
    configured, pyautogui.moveTo raises on the rising edge, and the click
    is not made. *)
Lemma C4_counterexample :
  click watch20 = true
  /\ snd (guarded_item stuck_pointer "eng" watch20)
     = [EGrab region100; ECvtColor; EMatchTemplate false;
        EMoveTo 50 50 0.0%float; EError "FailSafeException"]
  /\ ~ In EClick (snd (guarded_item stuck_pointer "eng" watch20)).
Proof.
  split; [reflexivity | split; [vm_compute; reflexivity |]].
  vm_compute. intuition discriminate.
Qed.

(** C4, amended: on a rising edge the configured actions run in the order
    of the source inside the one handler of the watch; when one of them
    raises, those before it have run, those after it are not called on
    that tick, the exception is reported as an error event, and the flag
    is already up. *)
Theorem C4_failure_skips_rest (b : backend) (lang : string)
    (item : ImageWatch) (mon : monitor) (max_loc : Z * Z)
    (done : list action) (a : action) (rest : list action) (e : exn) :
  outcome (locate b lang item) = inr (Some (mon, true, max_loc)) ->
  _triggered item = false ->
  configured (set_triggered true item) (fst (centre item mon max_loc))
    (snd (centre item mon max_loc)) = done ++ a :: rest ->
  (forall a', In a' done -> answer b a' (set_triggered true item) = inr tt) ->
  answer b a (set_triggered true item) = inl e ->
  guarded_item b lang item
  = (set_triggered true item,
     trace (locate b lang item)
       ++ calls_of b (set_triggered true item) (done ++ [a]) ++ [EError e]).
Proof.
  intros Hloc Ht Hplan Hdone Ha.
  rewrite guarded_item_eq. cbv zeta. rewrite Hloc, Ht, Hplan.
  destruct (reached_failure b _ done a rest e Hdone Ha) as [-> ->].
  reflexivity.
Qed.

Lemma C4_failure_skips_rest_witness :
  guarded_item stuck_pointer "eng" watch20
  = (set_triggered true watch20,
     trace (locate stuck_pointer "eng" watch20)
       ++ calls_of stuck_pointer (set_triggered true watch20)
            ([] ++ [Move 50 50 0.0%float])
       ++ [EError "FailSafeException"]).
Proof.
  apply (C4_failure_skips_rest stuck_pointer "eng" watch20 region100 (40, 40)
           [] (Move 50 50 0.0%float) [Click] "FailSafeException").
  - reflexivity.
  - reflexivity.
  - reflexivity.
  - intros a' [].
  - reflexivity.
Defined.

(** ** Exceptions and the flag *)

Lemma perform_no_error (b : backend) (a : action) (s : ImageWatch) (ev : event) :
  In ev (trace (perform b a s)) -> is_error ev = false.
Proof.
  destruct a; simpl; try (intros [<- | []]; reflexivity).
  unfold trace, bring_to_foreground, bind, call, ret.
  destruct (EnumWindows b) as [e | hwnds]; simpl;
    [intros [<- | []]; reflexivity|].
  destruct (filter _ hwnds) as [| hw tl]; simpl;
    [intros [<- | []]; reflexivity|].
  destruct (ShowWindow b hw 5) as [e | []]; simpl;
    intuition (subst; reflexivity).
Qed.

Lemma calls_no_error (b : backend) (s : ImageWatch) (l : list action) (ev : event) :
  In ev (calls_of b s l) -> is_error ev = false.
Proof.
  unfold calls_of. rewrite in_flat_map. intros (a & _ & H).
  eapply perform_no_error, H.
Qed.

Lemma failure_fires (b : backend) (s : ImageWatch) (l : list action) (e : exn) :
  first_failure b s l = Some e -> fired (calls_of b s (reached b s l)) = true.
Proof.
  destruct l as [| a l]; simpl; [discriminate|]. intros _.
  unfold calls_of; simpl. rewrite fired_app, perform_fires. reflexivity.
Qed.

Lemma for_items_done (env : tick_env) (lang : string) (items : list ImageWatch) :
  forall i flag,
    items_done (snd (for_items env lang i items flag))
    = seq i (List.length items)
    /\ List.length (fst (fst (for_items env lang i items flag)))
       = List.length items.
Proof.
  induction items as [| item rest IH]; intros i flag; simpl; [auto|].
  destruct (do_step lang item (ui_writes env i, answers env i)) as [item' t].
  specialize (IH (S i) (if stop_arrives env i then false else flag)).
  destruct (for_items env lang (S i) rest _) as [[rest' flag'] l].
  simpl in *. destruct IH as [IH1 IH2].
  destruct (stop_arrives env i); simpl; rewrite IH1, IH2; auto.
Qed.

(** C10 does not hold as stated: pyautogui.click raises on a rising
    edge; the tick reports the error, yet the flag, down before, is up
    after the tick, and the pointer move was made. *)
Lemma C10_counterexample :
  existsb is_error (snd (guarded_item slipping_click "eng" watch20)) = true
  /\ _triggered watch20 = false
  /\ _triggered (fst (guarded_item slipping_click "eng" watch20)) = true
  /\ snd (guarded_item slipping_click "eng" watch20)
     = [EGrab region100; ECvtColor; EMatchTemplate false;
        EMoveTo 50 50 0.0%float; EClick; EError "click failed"].
Proof. vm_compute. repeat split. Qed.

(** C10, amended: a tick that reports an exception either raised before
    line 110 (capture, grayscale, match, OCR), and then the watch with its
    flag is as before and no action was called; or an action raised on a
    rising edge, and then the flag, down before, is up after the tick and
    the actions up to the failing one were called.  In both cases a flag
    that was up stays up. *)
Theorem C10_error_tick (b : backend) (lang : string) (item : ImageWatch)
    (e : exn) :
  In (EError e) (snd (guarded_item b lang item)) ->
  ((outcome (locate b lang item) = inl e
    /\ fst (guarded_item b lang item) = item
    /\ fired (snd (guarded_item b lang item)) = false)
   \/ (found_of b lang item = Some true
       /\ _triggered item = false
       /\ _triggered (fst (guarded_item b lang item)) = true
       /\ fired (snd (guarded_item b lang item)) = true))
  /\ (_triggered item = true ->
      _triggered (fst (guarded_item b lang item)) = true).
Proof.
  intros Hin.
  pose proof (locate_quiet b lang item) as [_ Hq].
  assert (Hnot : ~ In (EError e) (trace (locate b lang item))).
  { intros H. rewrite Forall_forall in Hq. destruct (Hq _ H) as [_ H']. discriminate. }
  pose proof (locate_not_fired b lang item) as Hnf.
  revert Hin. rewrite guarded_item_eq. unfold found_of. cbv zeta.
  destruct (outcome (locate b lang item)) as [e' | [[[mon found] loc] |]].
  - simpl. rewrite in_app_iff. intros [H | [H | []]]; [contradiction|].
    injection H as ->. rewrite fired_app, Hnf. auto.
  - destruct found; [destruct (_triggered item) eqn:Et |]; simpl;
      try (intros H; contradiction).
    rewrite !in_app_iff. intros [H | [H | H]]; [contradiction | |].
    + apply calls_no_error in H. discriminate.
    + destruct (first_failure b _ _) as [e' |] eqn:Ef; [| destruct H].
      split; [| discriminate]. right.
      rewrite !fired_app, (failure_fires _ _ _ _ Ef), orb_true_r.
      auto.
  - simpl. intros H. contradiction.
Qed.

Lemma C10_error_tick_witness :
  ((outcome (locate slipping_click "eng" watch20) = inl "click failed"
    /\ fst (guarded_item slipping_click "eng" watch20) = watch20
    /\ fired (snd (guarded_item slipping_click "eng" watch20)) = false)
   \/ (found_of slipping_click "eng" watch20 = Some true
       /\ _triggered watch20 = false
       /\ _triggered (fst (guarded_item slipping_click "eng" watch20)) = true
       /\ fired (snd (guarded_item slipping_click "eng" watch20)) = true))
  /\ (_triggered watch20 = true ->
      _triggered (fst (guarded_item slipping_click "eng" watch20)) = true).
Proof.
  apply (C10_error_tick slipping_click "eng" watch20 "click failed").
  vm_compute. do 5 right. left. reflexivity.
Defined.

(** ** A failing OCR *)

(** C8 does not hold as stated: the flag of the watch is up, the
    template scores 0.5 against 0.8, OCR fallback is set and
    pytesseract raises; the tick reports the error and the flag stays
    up. *)
Lemma C8_counterexample :
  ocr_fallback armed_ocr_watch = true
  /\ _triggered armed_ocr_watch = true
  /\ guarded_item no_tesseract "eng" armed_ocr_watch
     = (armed_ocr_watch,
        [EGrab region100; ECvtColor; EMatchTemplate false; EOcr "eng";
         EError "tesseract is not installed"])
  /\ _triggered (fst (guarded_item no_tesseract "eng" armed_ocr_watch)) <> false.
Proof.
  split; [reflexivity | split; [reflexivity | split]].
  - vm_compute. reflexivity.
  - vm_compute. discriminate.
Qed.

(** C8, amended: for a watch with OCR fallback whose template scores below
    the threshold, a text without the keyword (the empty text among them)
    is no detection: the flag is down after the tick and nothing fires.
    When the OCR call raises, the exception is reported as an error event,
    nothing fires and the watch keeps the flag it had.  In either case the
    tick goes on: it processes every watch of its snapshot. *)
Theorem C8_ocr_failure (b : backend) (lang : string) (item : ImageWatch)
    (mon : monitor) (frame bgr gray templ : ndarray) (score : float)
    (loc : Z * Z) :
  select_mon b item = inr mon -> sct_grab b mon = inr frame ->
  first3 frame = inr bgr -> grayscale b bgr = inr gray ->
  template item = Some templ ->
  cv2_matchTemplate b gray templ (mask item) = inr (score, loc) ->
  (threshold item <=? score)%float = false -> ocr_fallback item = true ->
  let pre := [EGrab mon; ECvtColor; EMatchTemplate (is_Some (mask item));
              EOcr lang] in
  (forall text, image_to_string b frame lang = inr text ->
     contains "skip" (lower text) = false ->
     guarded_item b lang item = (set_triggered false item, pre))
  /\ (image_to_string b frame lang = inr "" ->
      guarded_item b lang item = (set_triggered false item, pre))
  /\ (forall e, image_to_string b frame lang = inl e ->
      guarded_item b lang item = (item, pre ++ [EError e]))
  /\ (forall (env : tick_env) (items : list ImageWatch) (flag : bool),
      items_done (snd (for_items env lang 0 items flag))
      = seq 0 (List.length items)).
Proof.
  intros Hmon Hgrab Hbgr Hgray Htempl Hmatch Hbelow Hocr pre.
  pose proof (locate_matched b lang item mon frame bgr gray templ
                Hmon Hgrab Hbgr Hgray Htempl score loc Hmatch) as Hl.
  cbv zeta in Hl. rewrite Hbelow, Hocr in Hl. simpl in Hl.
  assert (Hno : forall text, image_to_string b frame lang = inr text ->
                contains "skip" (lower text) = false ->
                guarded_item b lang item = (set_triggered false item, pre)).
  { intros text Ht Hc. rewrite guarded_item_eq, Hl, Ht, Hc. reflexivity. }
  split; [exact Hno | split; [| split]].
  - intros Ht. apply (Hno "" Ht). reflexivity.
  - intros e He. rewrite guarded_item_eq, Hl, He. reflexivity.
  - intros env items flag. apply for_items_done.
Qed.

Lemma C8_ocr_failure_witness :
  guarded_item no_tesseract "eng" armed_ocr_watch
  = (armed_ocr_watch,
     [EGrab region100; ECvtColor;
      EMatchTemplate (is_Some (mask armed_ocr_watch)); EOcr "eng"]
       ++ [EError "tesseract is not installed"]).
Proof.
  pose proof (C8_ocr_failure no_tesseract "eng" armed_ocr_watch region100
                (zeros [100; 100; 4])
                {| shape := [100; 100; 3]; entry := fun _ => 0 |}
                (zeros [100; 100]) (zeros [20; 20]) 0.5%float (7, 7)) as H.
  do 8 (match type of H with
        | ?P -> _ => assert (Hp : P) by (vm_compute; reflexivity);
                     specialize (H Hp); clear Hp
        end).
  destruct H as (_ & _ & H & _).
  apply H. reflexivity.
Defined.

(** ** The centre of the match *)

Lemma locate_mon (b : backend) (lang : string) (item : ImageWatch)
    (mon : monitor) (found : bool) (loc : Z * Z) :
  outcome (locate b lang item) = inr (Some (mon, found, loc)) ->
  select_mon b item = inr mon.
Proof.
  unfold locate, outcome. run_monad.
  destruct (select_mon b item) as [e | m]; simpl; [discriminate|].
  destruct (sct_grab b m) as [e | frame]; simpl; [discriminate|].
  destruct (first3 frame) as [e | bgr]; simpl; [discriminate|].
  destruct (grayscale b bgr) as [e | gray]; simpl; [discriminate|].
  destruct (template item) as [templ |]; simpl; [| discriminate].
  destruct (cv2_matchTemplate b gray templ (mask item)) as [e | [s l]];
    simpl; [discriminate|].
  destruct (negb (threshold item <=? s)%float && ocr_fallback item); simpl.
  - destruct (image_to_string b frame lang) as [e | text]; simpl;
      [discriminate|].
    destruct (contains "skip" (lower text)); simpl; congruence.
  - congruence.
Qed.

Lemma select_mon_origin (b : backend) (item : ImageWatch) (mon : monitor) :
  select_mon b item = inr mon ->
  region_origin b item = Some (mon_left mon, mon_top mon).
Proof.
  unfold select_mon, region_origin.
  destruct (region item) as [[[[x y] rw] rh] |].
  - intros H. injection H as <-. reflexivity.
  - destruct (nth_error (sct_monitors b) 1); [| discriminate].
    intros H. injection H as <-. reflexivity.
Qed.

Lemma reached_calls (b : backend) (s : ImageWatch) (l : list action) (ev : event) :
  In ev (calls_of b s (reached b s l)) -> In ev (calls_of b s l).
Proof.
  unfold calls_of. induction l as [| a l IH]; simpl; [auto|].
  rewrite !in_app_iff. intros [H | H]; [left; exact H|].
  destruct (answer b a s); [destruct H | right; apply IH, H].
Qed.

Lemma moveTo_of_Move (b : backend) (s : ImageWatch) (a : action)
    (cx cy : Z) (d : float) :
  In (EMoveTo cx cy d) (trace (perform b a s)) -> a = Move cx cy d.
Proof.
  destruct a; simpl; try (intros [H | []]; congruence).
  unfold trace, bring_to_foreground, bind, call, ret.
  destruct (EnumWindows b) as [e | hwnds]; simpl;
    [intros [H | []]; discriminate|].
  destruct (filter _ hwnds) as [| hw tl]; simpl;
    [intros [H | []]; discriminate|].
  destruct (ShowWindow b hw 5) as [e | []]; simpl;
    intuition discriminate.
Qed.

Lemma Move_configured (item : ImageWatch) (cx0 cy0 cx cy : Z) (d : float) :
  In (Move cx cy d) (configured item cx0 cy0) ->
  cx = cx0 /\ cy = cy0 /\ d = mouse_speed item /\ move_mouse item = true.
Proof.
  unfold configured, opt. rewrite !in_app_iff.
  destruct (move_mouse item), (click item), (truthy (press_key item)),
    (notify item), (truthy (sound item)), (truthy (window_title item));
    simpl; intuition congruence.
Qed.

(** [__init__] takes [h] and [w] from the shape of the template. *)
Lemma init_dims (b : backend) (p : string) (item : ImageWatch) :
  ImageWatch_init b p = inr item ->
  _triggered item = false
  /\ match template item with
     | Some templ => exists tl, shape templ = h item :: w item :: tl
     | None => cv2_imread b p = None /\ h item = 0 /\ w item = 0
     end.
Proof.
  unfold ImageWatch_init.
  destruct (cv2_imread b p) as [img |].
  - destruct (grayscale b img) as [e | g]; [discriminate|].
    destruct (shape g) as [| hh [| ww tl]] eqn:Es; try discriminate.
    intros H. injection H as <-. simpl. split; [reflexivity|].
    exists tl. exact Es.
  - intros H. injection H as <-. simpl. auto.
Qed.

(** C6: every pointer move of a tick goes to
    region origin + match location + (w // 2, h // 2): the watch was
    located at [(x, y)] in the capture rectangle [mon], whose origin is the
    region's (x, y) or the origin of [sct.monitors[1]] without region, and
    [w // 2], [h // 2] are the halves, by integer division, of the width
    and height that [__init__] took from the template's shape.  When the template itself scores at or above the threshold
    the location is the matcher's, and a watch with pointer move fires
    there on a rising edge.  A 20x20 template matched at (40, 40) in the
    region (0, 0, 100, 100) gives (50, 50). *)
Theorem C6_match_centre (b : backend) (lang : string) (item : ImageWatch) :
  (forall cx cy d,
     In (EMoveTo cx cy d) (snd (guarded_item b lang item)) ->
     exists mon x y,
       outcome (locate b lang item) = inr (Some (mon, true, (x, y)))
       /\ region_origin b item = Some (mon_left mon, mon_top mon)
       /\ cx = mon_left mon + x + w item / 2
       /\ cy = mon_top mon + y + h item / 2)
  /\ (forall mon frame bgr gray templ score x y,
       select_mon b item = inr mon -> sct_grab b mon = inr frame ->
       first3 frame = inr bgr -> grayscale b bgr = inr gray ->
       template item = Some templ ->
       cv2_matchTemplate b gray templ (mask item) = inr (score, (x, y)) ->
       (threshold item <=? score)%float = true ->
       _triggered item = false -> move_mouse item = true ->
       In (EMoveTo (mon_left mon + x + w item / 2)
                   (mon_top mon + y + h item / 2) (mouse_speed item))
          (snd (guarded_item b lang item)))
  /\ (forall p templ,
       ImageWatch_init b p = inr item -> template item = Some templ ->
       exists tl, shape templ = h item :: w item :: tl)
  /\ centre watch20 region100 (40, 40) = (50, 50)
  /\ snd (guarded_item (calm 0.85 (40, 40)) "eng" watch20)
     = [EGrab region100; ECvtColor; EMatchTemplate false;
        EMoveTo 50 50 0.0%float; EClick].
Proof.
  split; [| split; [| split; [| split]]];
    [ | | intros p templ Hi Ht; destruct (init_dims b p item Hi) as [_ Hd];
          rewrite Ht in Hd; exact Hd | | ].
  - intros cx cy d. rewrite guarded_item_eq. cbv zeta.
    pose proof (locate_quiet b lang item) as [_ Hq].
    rewrite Forall_forall in Hq.
    assert (Hnot : ~ In (EMoveTo cx cy d) (trace (locate b lang item))).
    { intros H. destruct (Hq _ H) as [H' _]. discriminate. }
    destruct (outcome (locate b lang item)) as [e | [[[mon found] [x y]] |]] eqn:El.
    + simpl. rewrite in_app_iff. intros [H | [H | []]];
        [contradiction | discriminate].
    + destruct found; [destruct (_triggered item) |]; simpl;
        try (intros H; contradiction).
      rewrite !in_app_iff. intros [H | [H | H]]; [contradiction | |].
      * apply reached_calls in H. unfold calls_of in H.
        rewrite in_flat_map in H. destruct H as (a & Ha & H).
        apply moveTo_of_Move in H. subst a.
        apply Move_configured in Ha. destruct Ha as (-> & -> & _).
        exists mon, x, y. split; [reflexivity|].
        split; [apply select_mon_origin; eapply locate_mon; exact El|].
        split; reflexivity.
      * destruct (first_failure b _ _); [| destruct H].
        destruct H as [H | []]. discriminate.
    + simpl. intros H. contradiction.
  - intros mon frame bgr gray templ score x y
      Hmon Hgrab Hbgr Hgray Htempl Hmatch Habove Ht Hmove.
    rewrite guarded_item_eq.
    rewrite (locate_matched b lang item mon frame bgr gray templ
               Hmon Hgrab Hbgr Hgray Htempl score (x, y) Hmatch).
    cbv zeta. rewrite Habove. simpl. rewrite Ht.
    unfold configured. simpl. rewrite Hmove. simpl.
    right. right. right. left. reflexivity.
  - reflexivity.
  - vm_compute. reflexivity.
Qed.

Lemma C6_match_centre_witness :
  In (EMoveTo (mon_left region100 + 40 + w watch20 / 2)
              (mon_top region100 + 40 + h watch20 / 2) (mouse_speed watch20))
     (snd (guarded_item (calm 0.85 (40, 40)) "eng" watch20)).
Proof.
  pose proof (proj1 (proj2 (C6_match_centre (calm 0.85 (40, 40)) "eng" watch20))
                region100 (zeros [100; 100; 4])
                {| shape := [100; 100; 3]; entry := fun _ => 0 |}
                (zeros [100; 100]) (zeros [20; 20]) 0.85%float 40 40) as H.
  apply H; vm_compute; reflexivity.
Defined.

(** ** A watch without template *)

Lemma locate_inert (b : backend) (lang : string) (item : ImageWatch) :
  template item = None ->
  found_of b lang item = None
  /\ existsb is_match_or_ocr (trace (locate b lang item)) = false
  /\ (outcome (locate b lang item) = inr None
      \/ exists e, outcome (locate b lang item) = inl e).
Proof.
  intros Ht. unfold found_of, locate, outcome, trace. run_monad. rewrite Ht.
  destruct (select_mon b item) as [e | m]; simpl; [eauto|].
  destruct (sct_grab b m) as [e | frame]; simpl; [eauto|].
  destruct (first3 frame) as [e | bgr]; simpl; [eauto|].
  destruct (grayscale b bgr) as [e | gray]; simpl; eauto.
Qed.

Lemma inert_step (b : backend) (lang : string) (item : ImageWatch) :
  template item = None ->
  fst (guarded_item b lang item) = item
  /\ fired (snd (guarded_item b lang item)) = false
  /\ existsb is_match_or_ocr (snd (guarded_item b lang item)) = false.
Proof.
  intros Ht. destruct (locate_inert b lang item Ht) as (_ & Hm & Ho).
  pose proof (locate_not_fired b lang item) as Hnf.
  rewrite guarded_item_eq. cbv zeta.
  destruct Ho as [-> | [e ->]]; simpl.
  - auto.
  - rewrite fired_app, existsb_app, Hnf, Hm. auto.
Qed.

(** C7: a watch whose image does not decode has no template and its flag
    down; and a watch without template, whatever the UI thread writes to
    it (OCR fallback among it) and whatever the screen shows, is never
    found, never has its flag up, and no tick calls the matcher, OCR or an
    action for it. *)
Theorem C7_inert_watch (lang : string) :
  (forall (b : backend) (p : string),
     cv2_imread b p = None ->
     exists item, ImageWatch_init b p = inr item
                  /\ template item = None /\ _triggered item = false)
  /\ (forall (steps : list step) (item : ImageWatch),
       template item = None -> _triggered item = false ->
       template (fst (watch_life lang steps item)) = None
       /\ _triggered (fst (watch_life lang steps item)) = false
       /\ Forall (fun f => f = None) (life_found lang steps item)
       /\ Forall (fun t => fired t = false
                           /\ existsb is_match_or_ocr t = false)
                 (snd (watch_life lang steps item))).
Proof.
  split.
  - intros b p Hread. unfold ImageWatch_init. rewrite Hread.
    eexists. split; [reflexivity | split; reflexivity].
  - induction steps as [| s rest IH]; intros item Ht Hf; simpl.
    + auto.
    + unfold do_step.
      set (item0 := apply_uis (fst s) item).
      destruct (apply_uis_frame (fst s) item) as (Hf0 & Ht0 & _).
      fold item0 in Hf0, Ht0. rewrite Ht in Ht0. rewrite Hf in Hf0.
      destruct (inert_step (snd s) lang item0 Ht0) as (Hi & Hnf & Hnm).
      destruct (locate_inert (snd s) lang item0 Ht0) as (Hfo & _).
      destruct (guarded_item (snd s) lang item0) as [item1 t].
      simpl in Hi, Hnf, Hnm. subst item1.
      destruct (IH item0 Ht0 Hf0) as (IH1 & IH2 & IH3 & IH4).
      destruct (watch_life lang rest item0) as [item2 ts]. simpl in *.
      fold item0. rewrite Hfo.
      repeat split; auto.
Qed.

Lemma C7_inert_watch_witness :
  template (fst (watch_life "eng" inert_steps inert_watch)) = None
  /\ _triggered (fst (watch_life "eng" inert_steps inert_watch)) = false
  /\ Forall (fun f => f = None) (life_found "eng" inert_steps inert_watch)
  /\ Forall (fun t => fired t = false /\ existsb is_match_or_ocr t = false)
            (snd (watch_life "eng" inert_steps inert_watch)).
Proof.
  apply (proj2 (C7_inert_watch "eng") inert_steps inert_watch); reflexivity.
Defined.

(** ** The loop *)

Lemma items_done_app (l1 l2 : list loop_event) :
  items_done (l1 ++ l2) = items_done l1 ++ items_done l2.
Proof.
  induction l1 as [| ev l1 IH]; simpl; [reflexivity|].
  destruct ev; simpl; rewrite IH; reflexivity.
Qed.

Lemma sleeps_app (l1 l2 : list loop_event) :
  sleeps (l1 ++ l2) = sleeps l1 ++ sleeps l2.
Proof.
  induction l1 as [| ev l1 IH]; simpl; [reflexivity|].
  destruct ev; simpl; rewrite IH; reflexivity.
Qed.

Lemma whiles_app (l1 l2 : list loop_event) :
  whiles (l1 ++ l2) = whiles l1 ++ whiles l2.
Proof.
  induction l1 as [| ev l1 IH]; simpl; [reflexivity|].
  destruct ev; simpl; rewrite IH; reflexivity.
Qed.

(** The [for] makes no test of the flag and takes no sleep. *)
Lemma for_items_inner (env : tick_env) (lang : string) (items : list ImageWatch) :
  forall i flag,
    sleeps (snd (for_items env lang i items flag)) = []
    /\ whiles (snd (for_items env lang i items flag)) = [].
Proof.
  induction items as [| item rest IH]; intros i flag; simpl; [auto|].
  destruct (do_step lang item (ui_writes env i, answers env i)) as [item' t].
  specialize (IH (S i) (if stop_arrives env i then false else flag)).
  destruct (for_items env lang (S i) rest _) as [[rest' flag'] l].
  simpl in *. destruct (stop_arrives env i); simpl; exact IH.
Qed.

(** The flag after the [for]: as before without request, down when the
    request arrived at one of its watches. *)
Lemma for_items_flag (env : tick_env) (lang : string) (items : list ImageWatch) :
  stop_request env = None ->
  forall i flag, snd (fst (for_items env lang i items flag)) = flag.
Proof.
  intros Hn. induction items as [| item rest IH]; intros i flag; simpl;
    [reflexivity|].
  destruct (do_step lang item (ui_writes env i, answers env i)) as [item' t].
  specialize (IH (S i) (if stop_arrives env i then false else flag)).
  destruct (for_items env lang (S i) rest _) as [[rest' flag'] l].
  simpl in *. rewrite IH. unfold stop_arrives. rewrite Hn. reflexivity.
Qed.

Lemma for_items_down (env : tick_env) (lang : string) (items : list ImageWatch) :
  forall i, snd (fst (for_items env lang i items false)) = false.
Proof.
  induction items as [| item rest IH]; intros i; simpl; [reflexivity|].
  destruct (do_step lang item (ui_writes env i, answers env i)) as [item' t].
  specialize (IH (S i)).
  destruct (stop_arrives env i);
    destruct (for_items env lang (S i) rest false) as [[rest' flag'] l];
    exact IH.
Qed.

Lemma for_items_stopped (env : tick_env) (lang : string) (k : nat)
    (items : list ImageWatch) :
  stop_request env = Some k ->
  forall i flag, (i <= k < i + List.length items)%nat ->
  snd (fst (for_items env lang i items flag)) = false.
Proof.
  intros Hk. induction items as [| item rest IH]; intros i flag Hi; simpl in *;
    [lia|].
  destruct (do_step lang item (ui_writes env i, answers env i)) as [item' t].
  unfold stop_arrives. rewrite Hk.
  destruct (Nat.eqb k i) eqn:E.
  - pose proof (for_items_down env lang rest (S i)) as Hd.
    destruct (for_items env lang (S i) rest false) as [[rest' flag'] l].
    exact Hd.
  - apply Nat.eqb_neq in E.
    specialize (IH (S i) flag).
    destruct (for_items env lang (S i) rest flag) as [[rest' flag'] l].
    apply IH. lia.
Qed.

(** One iteration: the clock, every watch of the snapshot, the clock, the
    sleep of the pacing. *)
Lemma iteration_shape (env : tick_env) (th : MonitorThread) :
  exists work,
    snd (iteration env th)
    = [LTime (clock_start env)] ++ work ++ [LTime (clock_end env)]
        ++ map LSleep (naps (interval th) env)
        ++ (if stop_in_pacing env (List.length (watch_list th))
            then [LStopRequest] else [])
    /\ items_done work = seq 0 (List.length (watch_list th))
    /\ sleeps work = [] /\ whiles work = []
    /\ interval (fst (iteration env th)) = interval th
    /\ List.length (watch_list (fst (iteration env th)))
       = List.length (watch_list th)
    /\ (stop_request env = None ->
        running (fst (iteration env th)) = running th).
Proof.
  unfold iteration.
  pose proof (for_items_done env (ocr_lang th) (watch_list th) 0%nat (running th))
    as [Hd Hl].
  pose proof (for_items_inner env (ocr_lang th) (watch_list th) 0%nat (running th))
    as [Hs Hw].
  pose proof (fun H => for_items_flag env (ocr_lang th) (watch_list th) H
                        0%nat (running th)) as Hf.
  destruct (for_items env (ocr_lang th) 0 (watch_list th) (running th))
    as [[items flag] l].
  simpl in *. exists l.
  split; [| repeat split; auto].
  - unfold naps. destruct (pacing _ _); reflexivity.
  - intros Hn. unfold stop_in_pacing. rewrite Hn. apply Hf, Hn.
Qed.

Lemma readings_of_sleeps (ds : list float) :
  items_done (map LSleep ds) = [] /\ sleeps (map LSleep ds) = ds
  /\ whiles (map LSleep ds) = [].
Proof.
  induction ds as [| d ds (IH1 & IH2 & IH3)]; simpl; [auto|].
  rewrite IH2. auto.
Qed.

(** The readings of one iteration without request to stop. *)
Lemma iteration_readings (env : tick_env) (th : MonitorThread) :
  stop_request env = None ->
  items_done (snd (iteration env th)) = seq 0 (List.length (watch_list th))
  /\ sleeps (snd (iteration env th)) = naps (interval th) env
  /\ whiles (snd (iteration env th)) = [].
Proof.
  intros Hn.
  destruct (iteration_shape env th) as (work & -> & Hd & Hs & Hw & _).
  destruct (readings_of_sleeps (naps (interval th) env)) as (R1 & R2 & R3).
  unfold stop_in_pacing. rewrite Hn.
  rewrite !items_done_app, !sleeps_app, !whiles_app, Hd, Hs, Hw, R1, R2, R3.
  simpl. rewrite !app_nil_r. auto.
Qed.

(** As long as nobody asks to stop, every iteration is entered, processes
    every watch and takes the sleep of its own pacing. *)
Lemma loop_unstopped (envs : list tick_env) :
  forall th, running th = true ->
  (forall env, In env envs -> stop_request env = None) ->
  fst (fst (loop envs th)) = StillRunning
  /\ whiles (snd (loop envs th)) = repeat true (List.length envs)
  /\ items_done (snd (loop envs th))
     = List.concat (map (fun _ => seq 0 (List.length (watch_list th))) envs)
  /\ sleeps (snd (loop envs th)) = flat_map (naps (interval th)) envs.
Proof.
  induction envs as [| env rest IH]; intros th Hr Hn; simpl; rewrite Hr.
  - auto.
  - assert (Hnone : stop_request env = None) by (apply Hn; left; reflexivity).
    destruct (iteration_readings env th Hnone) as (Hd & Hs & Hw).
    destruct (iteration_shape env th) as (_ & _ & _ & _ & _ & Hi & Hl & Hrun).
    destruct (iteration env th) as [th1 l1]. simpl in *.
    specialize (IH th1).
    destruct IH as (IH1 & IH2 & IH3 & IH4);
      [rewrite Hrun; auto | intros e He; apply Hn; right; exact He |].
    destruct (loop rest th1) as [[e th2] l2]. simpl in *.
    rewrite items_done_app, sleeps_app, whiles_app.
    rewrite Hd, Hs, Hw, IH2, IH3, IH4, Hi, Hl. auto.
Qed.

(** C5: after the watches of a tick the loop sleeps for the rest of the
    interval: [interval - elapsed] when [elapsed < interval], and not at
    all otherwise, the next test of the [while] following the second clock
    reading at once.  No tick is skipped: as long as nobody asks to stop,
    every iteration given is entered and processes every watch, whatever
    the clock readings, and the sleeps taken are those of the pacing of
    each tick. *)
Theorem C5_pacing (th : MonitorThread) (envs : list tick_env) :
  (forall iv elapsed : float,
     ((elapsed <? iv)%float = true ->
      pacing iv elapsed = Some (iv - elapsed)%float)
     /\ ((elapsed <? iv)%float = false -> pacing iv elapsed = None))
  /\ (forall env : tick_env,
      exists work,
        snd (iteration env th)
        = [LTime (clock_start env)] ++ work ++ [LTime (clock_end env)]
            ++ map LSleep (naps (interval th) env)
            ++ (if stop_in_pacing env (List.length (watch_list th))
                then [LStopRequest] else [])
        /\ items_done work = seq 0 (List.length (watch_list th))
        /\ sleeps work = [])
  /\ ((forall env, In env envs -> stop_request env = None) ->
      fst (fst (run envs th)) = StillRunning
      /\ whiles (snd (run envs th)) = repeat true (List.length envs)
      /\ items_done (snd (run envs th))
         = List.concat (map (fun _ => seq 0 (List.length (watch_list th))) envs)
      /\ sleeps (snd (run envs th)) = flat_map (naps (interval th)) envs).
Proof.
  split; [| split].
  - intros iv elapsed. unfold pacing.
    destruct (elapsed <? iv)%float; split; intros H;
      try discriminate; reflexivity.
  - intros env.
    destruct (iteration_shape env th) as (work & H1 & H2 & H3 & _).
    exists work. auto.
  - intros Hn. unfold run.
    destruct (loop_unstopped envs (set_running true th) eq_refl Hn)
      as (H1 & H2 & H3 & H4).
    destruct (loop envs (set_running true th)) as [[e th'] l].
    simpl in *. auto.
Qed.

Lemma C5_pacing_witness :
  pacing 0.1 0.25 = None
  /\ fst (fst (run paced_ticks (MonitorThread_default [watch20]))) = StillRunning
  /\ whiles (snd (run paced_ticks (MonitorThread_default [watch20])))
     = repeat true (List.length paced_ticks)
  /\ sleeps (snd (run paced_ticks (MonitorThread_default [watch20])))
     = flat_map (naps (interval (MonitorThread_default [watch20]))) paced_ticks.
Proof.
  destruct (C5_pacing (MonitorThread_default [watch20]) paced_ticks)
    as (Hp & _ & Hrun).
  split.
  - apply (Hp 0.1%float 0.25%float). vm_compute. reflexivity.
  - destruct Hrun as (H1 & H2 & _ & H4).
    + intros env [<- | [<- | []]]; reflexivity.
    + auto.
Defined.

(** ** Stopping *)

Lemma for_items_without_stop (env : tick_env) (lang : string)
    (items : list ImageWatch) :
  forall i flag flag',
    fst (fst (for_items env lang i items flag))
    = fst (fst (for_items (without_stop env) lang i items flag'))
    /\ filter not_stop (snd (for_items env lang i items flag))
       = snd (for_items (without_stop env) lang i items flag').
Proof.
  induction items as [| item rest IH]; intros i flag flag'; simpl; [auto|].
  destruct (do_step lang item (ui_writes env i, answers env i)) as [item' t].
  specialize (IH (S i) (if stop_arrives env i then false else flag) flag').
  destruct (for_items env lang (S i) rest _) as [[rest1 flag1] l1].
  destruct (for_items (without_stop env) lang (S i) rest flag')
    as [[rest2 flag2] l2].
  simpl in *. destruct IH as [-> <-].
  destruct (stop_arrives env i); simpl; auto.
Qed.

(** A request to stop does not change what the tick does. *)
Lemma iteration_without_stop (env : tick_env) (th : MonitorThread) :
  watch_list (fst (iteration env th))
  = watch_list (fst (iteration (without_stop env) th))
  /\ filter not_stop (snd (iteration env th))
     = snd (iteration (without_stop env) th).
Proof.
  unfold iteration.
  pose proof (for_items_without_stop env (ocr_lang th) (watch_list th)
                0%nat (running th) (running th)) as [H1 H2].
  destruct (for_items env (ocr_lang th) 0 (watch_list th) (running th))
    as [[items1 flag1] l1].
  destruct (for_items (without_stop env) (ocr_lang th) 0 (watch_list th)
              (running th)) as [[items2 flag2] l2].
  simpl in *. subst items2 l2. split; [reflexivity|].
  rewrite !filter_app. simpl.
  destruct (pacing _ _); destruct (stop_in_pacing env _); simpl;
    rewrite ?app_nil_r; reflexivity.
Qed.

(** After a tick during which the request arrived the flag is down. *)
Lemma iteration_stopped (env : tick_env) (th : MonitorThread) (k : nat) :
  stop_request env = Some k -> running (fst (iteration env th)) = false.
Proof.
  intros Hk. unfold iteration.
  pose proof (for_items_stopped env (ocr_lang th) k (watch_list th) Hk
                0%nat (running th)) as Hs.
  destruct (for_items env (ocr_lang th) 0 (watch_list th) (running th))
    as [[items flag] l].
  simpl in *. unfold stop_in_pacing. rewrite Hk.
  destruct (Nat.leb (List.length (watch_list th)) k) eqn:E; [reflexivity|].
  apply Nat.leb_gt in E. apply Hs. lia.
Qed.

Lemma stopped_readings (env : tick_env) (th : MonitorThread) :
  whiles (snd (iteration env th)) = []
  /\ items_done (snd (iteration env th)) = seq 0 (List.length (watch_list th))
  /\ sleeps (snd (iteration env th)) = naps (interval th) env.
Proof.
  destruct (iteration_shape env th) as (work & -> & Hd & Hs & Hw & _).
  destruct (readings_of_sleeps (naps (interval th) env)) as (R1 & R2 & R3).
  rewrite !items_done_app, !sleeps_app, !whiles_app, Hd, Hs, Hw, R1, R2, R3.
  destruct (stop_in_pacing env _); simpl; rewrite ?app_nil_r; auto.
Qed.

(** The flag is read once per iteration, and once more to leave. *)
Lemma loop_reads (envs : list tick_env) :
  forall th, exists m,
    whiles (snd (loop envs th))
    = repeat true m
        ++ match fst (fst (loop envs th)) with
           | Returned => [false]
           | StillRunning => []
           end
    /\ items_done (snd (loop envs th))
       = List.concat (repeat (seq 0 (List.length (watch_list th))) m).
Proof.
  induction envs as [| env rest IH]; intros th; simpl.
  - exists 0%nat. destruct (running th); auto.
  - destruct (running th); [| exists 0%nat; auto].
    destruct (stopped_readings env th) as (Hw & Hd & _).
    destruct (iteration_shape env th) as (_ & _ & _ & _ & _ & _ & Hl & _).
    destruct (iteration env th) as [th1 l1]. simpl in *.
    destruct (IH th1) as (m & IH1 & IH2).
    destruct (loop rest th1) as [[e th2] l2]. simpl in *.
    exists (S m). rewrite whiles_app, items_done_app, Hw, Hd, IH1, IH2, Hl.
    auto.
Qed.

(** C9 does not hold as stated: the request to stop arrives while the
    tick works; the tick still processes its watch and then sleeps for
    the rest of the interval with no test of the flag before the sleep;
    the flag is read twice in all, to enter the iteration and to leave
    the loop. *)
Lemma C9_counterexample :
  snd (run stopping_tick (MonitorThread_default [watch20]))
  = [LSetRunning; LWhile true; LTime 10.0%float; LStopRequest;
     LItem 0 [EGrab region100; ECvtColor; EMatchTemplate false;
              EMoveTo 50 50 0.0%float; EClick];
     LTime 10.03%float; LSleep (0.1 - (10.03 - 10.0))%float; LWhile false]
  /\ sleeps_checked false
       (snd (run stopping_tick (MonitorThread_default [watch20]))) = false
  /\ whiles (snd (run stopping_tick (MonitorThread_default [watch20])))
     = [true; false].
Proof. vm_compute. repeat split. Qed.

(** C9, amended: the flag is read once per iteration, by the test of the
    [while], and not again before the sleep at the end of the tick.  A
    request to stop that arrives during a tick is honoured at the next
    test: the tick processes every watch of its snapshot and takes its
    pacing sleep exactly as without the request, and then the loop
    returns. *)
Theorem C9_stop_at_tick_boundary (env : tick_env) (rest : list tick_env)
    (th : MonitorThread) (k : nat) :
  running th = true -> stop_request env = Some k ->
  loop (env :: rest) th
  = (Returned, fst (iteration env th),
     LWhile true :: snd (iteration env th) ++ [LWhile false])
  /\ whiles (snd (iteration env th)) = []
  /\ items_done (snd (iteration env th)) = seq 0 (List.length (watch_list th))
  /\ sleeps (snd (iteration env th)) = naps (interval th) env
  /\ watch_list (fst (iteration env th))
     = watch_list (fst (iteration (without_stop env) th))
  /\ filter not_stop (snd (iteration env th))
     = snd (iteration (without_stop env) th)
  /\ (forall envs th0, exists m,
        whiles (snd (loop envs th0))
        = repeat true m
            ++ match fst (fst (loop envs th0)) with
               | Returned => [false]
               | StillRunning => []
               end
        /\ items_done (snd (loop envs th0))
           = List.concat (repeat (seq 0 (List.length (watch_list th0))) m)).
Proof.
  intros Hr Hk.
  destruct (stopped_readings env th) as (Hw & Hd & Hs).
  destruct (iteration_without_stop env th) as [Hl Hf].
  pose proof (iteration_stopped env th k Hk) as Hdown.
  repeat split; try assumption.
  - simpl. rewrite Hr.
    destruct (iteration env th) as [th1 l1]. simpl in *.
    destruct rest; simpl; rewrite Hdown; reflexivity.
  - intros envs th0. apply loop_reads.
Qed.

Lemma C9_stop_at_tick_boundary_witness :
  loop stopping_tick (set_running true (MonitorThread_default [watch20]))
  = (Returned,
     fst (iteration (one_tick 10.0 10.03 (calm 0.85 (40, 40)) (Some 0%nat))
            (set_running true (MonitorThread_default [watch20]))),
     LWhile true
       :: snd (iteration (one_tick 10.0 10.03 (calm 0.85 (40, 40)) (Some 0%nat))
                 (set_running true (MonitorThread_default [watch20])))
       ++ [LWhile false]).
Proof.
  apply (C9_stop_at_tick_boundary
           (one_tick 10.0 10.03 (calm 0.85 (40, 40)) (Some 0%nat)) []
           (set_running true (MonitorThread_default [watch20])) 0%nat);
    reflexivity.
Defined.

(** ** The loop, watch by watch *)

Lemma item_traces_app (j : nat) (l1 l2 : list loop_event) :
  item_traces j (l1 ++ l2) = item_traces j l1 ++ item_traces j l2.
Proof.
  induction l1 as [| ev l1 IH]; simpl; [reflexivity|].
  destruct ev; simpl; try exact IH.
  destruct (Nat.eqb i j); simpl; rewrite IH; reflexivity.
Qed.

(** The [for] takes every watch of the snapshot through its own step. *)
Lemma for_items_nth (env : tick_env) (lang : string) (items : list ImageWatch) :
  forall i flag j,
    nth_error (fst (fst (for_items env lang i items flag))) j
    = option_map
        (fun item =>
           fst (do_step lang item (ui_writes env (i + j), answers env (i + j))))
        (nth_error items j)
    /\ item_traces (i + j) (snd (for_items env lang i items flag))
       = match nth_error items j with
         | Some item =>
             [snd (do_step lang item
                     (ui_writes env (i + j), answers env (i + j)))]
         | None => []
         end
    /\ forall j', (j' < i)%nat ->
         item_traces j' (snd (for_items env lang i items flag)) = [].
Proof.
  induction items as [| item rest IH]; intros i flag j; simpl.
  - destruct j; auto.
  - destruct (do_step lang item (ui_writes env i, answers env i))
      as [item' t] eqn:Es.
    pose proof (IH (S i) (if stop_arrives env i then false else flag)) as IH'.
    destruct (for_items env lang (S i) rest _) as [[rest' flag'] l].
    simpl in *.
    assert (Hskip : forall n l0,
              item_traces n ((if stop_arrives env i then [LStopRequest] else [])
                               ++ l0) = item_traces n l0)
      by (intros n l0; destruct (stop_arrives env i); reflexivity).
    split; [| split].
    + destruct j as [| j]; simpl.
      * rewrite Nat.add_0_r, Es. reflexivity.
      * destruct (IH' j) as (H1 & _).
        replace (i + S j)%nat with (S i + j)%nat by lia. exact H1.
    + rewrite Hskip. simpl.
      destruct j as [| j]; simpl.
      * rewrite Nat.add_0_r, Nat.eqb_refl, Es. simpl.
        destruct (IH' 0%nat) as (_ & _ & H3). rewrite H3 by lia. reflexivity.
      * destruct (Nat.eqb i (i + S j)) eqn:E;
          [apply Nat.eqb_eq in E; lia|].
        destruct (IH' j) as (_ & H2 & _).
        replace (i + S j)%nat with (S i + j)%nat by lia. exact H2.
    + intros j' Hj. rewrite Hskip. simpl.
      destruct (Nat.eqb i j') eqn:E; [apply Nat.eqb_eq in E; lia|].
      destruct (IH' 0%nat) as (_ & _ & H3). apply H3. lia.
Qed.

Lemma iteration_nth (env : tick_env) (th : MonitorThread) (j : nat) :
  nth_error (watch_list (fst (iteration env th))) j
  = option_map
      (fun item => fst (do_step (ocr_lang th) item (ui_writes env j, answers env j)))
      (nth_error (watch_list th) j)
  /\ item_traces j (snd (iteration env th))
     = match nth_error (watch_list th) j with
       | Some item =>
           [snd (do_step (ocr_lang th) item (ui_writes env j, answers env j))]
       | None => []
       end
  /\ ocr_lang (fst (iteration env th)) = ocr_lang th.
Proof.
  unfold iteration.
  destruct (for_items_nth env (ocr_lang th) (watch_list th) 0%nat (running th) j)
    as (H1 & H2 & _).
  destruct (for_items env (ocr_lang th) 0 (watch_list th) (running th))
    as [[items flag] l].
  simpl in *. split; [exact H1 | split; [| reflexivity]].
  rewrite !item_traces_app, H2. simpl.
  destruct (pacing _ _); destruct (stop_in_pacing env _); simpl;
    rewrite ?app_nil_r; reflexivity.
Qed.

(** As long as nobody asks to stop, the loop takes the watch at every
    place of the list through its life: its steps are the UI thread's
    writes and the backends' answers of the successive iterations. *)
Lemma loop_watch_life (envs : list tick_env) (j : nat) :
  forall th, running th = true ->
  (forall env, In env envs -> stop_request env = None) ->
  nth_error (watch_list (snd (fst (loop envs th)))) j
  = option_map
      (fun item => fst (watch_life (ocr_lang th) (steps_of envs j) item))
      (nth_error (watch_list th) j)
  /\ item_traces j (snd (loop envs th))
     = match nth_error (watch_list th) j with
       | Some item => snd (watch_life (ocr_lang th) (steps_of envs j) item)
       | None => []
       end.
Proof.
  induction envs as [| env rest IH]; intros th Hr Hn; simpl; rewrite Hr.
  - simpl. destruct (nth_error (watch_list th) j); auto.
  - assert (Hnone : stop_request env = None) by (apply Hn; left; reflexivity).
    destruct (iteration_nth env th j) as (H1 & H2 & H3).
    destruct (iteration_shape env th) as (_ & _ & _ & _ & _ & _ & _ & Hrun).
    destruct (iteration env th) as [th1 l1]. simpl in *.
    destruct (IH th1) as (IH1 & IH2);
      [rewrite Hrun; auto | intros e He; apply Hn; right; exact He |].
    destruct (loop rest th1) as [[e th2] l2]. simpl in *.
    rewrite item_traces_app, H2, IH1, IH2, H1, H3.
    destruct (nth_error (watch_list th) j) as [item |]; simpl; [| auto].
    destruct (do_step (ocr_lang th) item (ui_writes env j, answers env j))
      as [item1 t].
    simpl.
    destruct (watch_life (ocr_lang th) (steps_of rest j) item1) as [item2 ts].
    simpl. auto.
Qed.

(** * Further properties of the code *)

(** ** Text: [str.lower] and [in] *)

Lemma prefix_app (a s : string) :
  String.prefix a s = true <-> exists post, s = (a ++ post)%string.
Proof.
  revert s. induction a as [| c a IH]; intros s.
  - split; [intros _; exists s; reflexivity | destruct s; reflexivity].
  - destruct s as [| d s]; simpl.
    + split; [discriminate | intros [post H]; discriminate].
    + destruct (ascii_dec c d) as [-> | Hne].
      * rewrite IH. split; intros [post H]; exists post; congruence.
      * split; [discriminate | intros [post H]; congruence].
Qed.

Lemma contains_step (sub s : string) :
  contains sub s
  = String.prefix sub s
    || match s with
       | EmptyString => false
       | String _ r => contains sub r
       end.
Proof.
  destruct s as [| c s]; unfold contains; fold contains;
    destruct (String.prefix sub _); reflexivity.
Qed.

(** [sub in s] holds exactly when [s] has [sub] as a contiguous part. *)
Lemma contains_app (sub s : string) :
  contains sub s = true <-> exists pre post, s = (pre ++ sub ++ post)%string.
Proof.
  induction s as [| c s IH]; rewrite contains_step, orb_true_iff, prefix_app.
  - split.
    + intros [[post H] | H]; [exists "", post; exact H | discriminate].
    + intros (pre & post & H). left.
      destruct pre; simpl in H; [eauto | discriminate].
  - rewrite IH. split.
    + intros [[post H] | (pre & post & ->)];
        [exists "", post; exact H | exists (String c pre), post; reflexivity].
    + intros (pre & post & H). destruct pre as [| d pre]; simpl in H.
      * left. eauto.
      * right. injection H as _ ->. eauto.
Qed.

Lemma lower_ascii_idem (c : ascii) : lower_ascii (lower_ascii c) = lower_ascii c.
Proof.
  unfold lower_ascii.
  destruct (Nat.leb 65 (nat_of_ascii c) && Nat.leb (nat_of_ascii c) 90) eqn:E;
    [| rewrite E; reflexivity].
  apply andb_true_iff in E. destruct E as [E1 E2].
  apply Nat.leb_le in E1, E2.
  rewrite nat_ascii_embedding by lia.
  replace (Nat.leb (nat_of_ascii c + 32) 90) with false
    by (symmetry; apply Nat.leb_gt; lia).
  rewrite andb_false_r. reflexivity.
Qed.

Lemma lower_idem (s : string) : lower (lower s) = lower s.
Proof.
  induction s as [| c s IH]; simpl; [reflexivity|].
  rewrite lower_ascii_idem, IH. reflexivity.
Qed.

Lemma lower_app (a b : string) :
  lower (a ++ b)%string = (lower a ++ lower b)%string.
Proof.
  induction a as [| c a IH]; simpl; [reflexivity|]. rewrite IH. reflexivity.
Qed.

(** A split of the lowered text is the lowering of a split of the text. *)
Lemma lower_split (s a b : string) :
  lower s = (a ++ b)%string ->
  exists a' b', s = (a' ++ b')%string /\ lower a' = a /\ lower b' = b.
Proof.
  revert s. induction a as [| c a IH]; intros s H; simpl in H.
  - exists "", s. auto.
  - destruct s as [| d s]; simpl in H; [discriminate|].
    injection H as Hc Hs. destruct (IH s Hs) as (a' & b' & -> & <- & <-).
    exists (String d a'), b'. simpl. rewrite Hc. auto.
Qed.

(** ** bring_to_foreground *)

Lemma filter_none {A} (f : A -> bool) (l : list A) :
  (forall x, In x l -> f x = false) -> filter f l = [].
Proof.
  induction l as [| x l IH]; intros H; simpl; [reflexivity|].
  rewrite (H x (or_introl eq_refl)). apply IH. intros y Hy. apply H. right. exact Hy.
Qed.

(** The head of a filtered list is the first element that passes. *)
Lemma filter_head {A} (f : A -> bool) (l : list A) (x : A) (tl : list A) :
  filter f l = x :: tl ->
  exists pre post, l = pre ++ x :: post /\ f x = true
                   /\ forall y, In y pre -> f y = false.
Proof.
  induction l as [| a l IH]; simpl; [discriminate|].
  destruct (f a) eqn:E.
  - intros H. injection H as -> _. exists [], l. simpl. intuition.
  - intros H. destruct (IH H) as (pre & post & -> & Hx & Hpre).
    exists (a :: pre), post. simpl. split; [reflexivity | split; [exact Hx|]].
    intros y [<- | Hy]; [exact E | apply Hpre, Hy].
Qed.

(** X1: for a substring and window titles of ASCII text,
    [bring_to_foreground] shows and raises one window at most: the first
    in the order of enumeration that is visible and whose title has the
    substring, both lowered.  It shows it with command 5 before it raises
    it, and does not raise it when showing it failed.  With no such window
    it enumerates and returns.  The case of the letters of the substring
    does not matter.  ([lower] is [str.lower] on ASCII text only, which
    lowers other letters too.) *)
Theorem X1_bring_to_foreground (b : backend) (t : string) (s : ImageWatch) :
  ascii_text t = true ->
  (forall hw, ascii_text (GetWindowText b hw) = true) ->
  (forall hw cmd,
     In (EShowWindow hw cmd) (trace (bring_to_foreground b t s))
     \/ In (ESetForegroundWindow hw) (trace (bring_to_foreground b t s)) ->
     exists hwnds pre post,
       EnumWindows b = inr hwnds /\ hwnds = pre ++ hw :: post
       /\ (forall x, In x pre -> enum_callback b t x = false)
       /\ IsWindowVisible b hw = true
       /\ (exists l r, lower (GetWindowText b hw) = (l ++ lower t ++ r)%string)
       /\ (In (EShowWindow hw cmd) (trace (bring_to_foreground b t s)) -> cmd = 5)
       /\ trace (bring_to_foreground b t s)
          = [EEnumWindows; EShowWindow hw 5]
            ++ match ShowWindow b hw 5 with
               | inl _ => []
               | inr _ => [ESetForegroundWindow hw]
               end)
  /\ (forall hwnds,
       EnumWindows b = inr hwnds ->
       (forall hw, In hw hwnds -> enum_callback b t hw = false) ->
       bring_to_foreground b t s = (inr tt, s, [EEnumWindows]))
  /\ (forall t', ascii_text t' = true -> lower t' = lower t ->
       bring_to_foreground b t' s = bring_to_foreground b t s).
Proof.
  intros _ _.
  split; [| split].
  - intros hw cmd. unfold trace, bring_to_foreground, bind, call, ret.
    destruct (EnumWindows b) as [e | hwnds] eqn:Ee; simpl;
      [intros [[H | []] | [H | []]]; discriminate|].
    destruct (filter (enum_callback b t) hwnds) as [| hw0 tl] eqn:Ef; simpl;
      [intros [[H | []] | [H | []]]; discriminate|].
    destruct (filter_head _ _ _ _ Ef) as (pre & post & Hl & Hm & Hpre).
    unfold enum_callback in Hm. apply andb_true_iff in Hm.
    destruct Hm as [Hv Hc]. apply contains_app in Hc.
    destruct (ShowWindow b hw0 5) as [e | []] eqn:Es; simpl; intros H.
    + assert (hw = hw0)
        by (destruct H as [[H | [H | []]] | [H | [H | []]]]; congruence).
      subst hw0. exists hwnds, pre, post. rewrite Es.
      repeat split; auto.
      intros [H' | [H' | []]]; congruence.
    + assert (hw = hw0)
        by (destruct H as [[H | [H | [H | []]]] | [H | [H | [H | []]]]];
            congruence).
      subst hw0. exists hwnds, pre, post. rewrite Es.
      repeat split; auto.
      intros [H' | [H' | [H' | []]]]; congruence.
  - intros hwnds He Hnone. unfold bring_to_foreground, bind, call, ret.
    rewrite He, (filter_none _ _ Hnone). reflexivity.
  - intros t' _ Ht. unfold bring_to_foreground, enum_callback.
    rewrite Ht. reflexivity.
Qed.

Lemma X1_bring_to_foreground_witness :
  bring_to_foreground office "Notepad" watch20 = (inr tt, watch20, [EEnumWindows])
  /\ bring_to_foreground office "VIDEO PLAYER" watch20
     = bring_to_foreground office "video player" watch20
  /\ trace (bring_to_foreground office "video player" watch20)
     = [EEnumWindows; EShowWindow 102 5; ESetForegroundWindow 102].
Proof.
  assert (Htitles : forall hw, ascii_text (GetWindowText office hw) = true).
  { intros hw. simpl. destruct (Z.eqb hw 101); [reflexivity|].
    destruct (Z.eqb hw 102); reflexivity. }
  destruct (X1_bring_to_foreground office "video player" watch20
              eq_refl Htitles) as (_ & _ & Hcase).
  destruct (X1_bring_to_foreground office "Notepad" watch20
              eq_refl Htitles) as (_ & Hnone & _).
  split; [| split].
  - apply (Hnone [101; 102; 103]); [reflexivity|].
    intros hw [<- | [<- | [<- | []]]]; reflexivity.
  - apply Hcase; reflexivity.
  - reflexivity.
Defined.

(** ** The OCR keyword *)

Lemma keyword_anywhere (text : string) :
  contains "skip" (lower text) = true
  <-> exists pre k post, text = (pre ++ k ++ post)%string /\ lower k = "skip".
Proof.
  rewrite contains_app. split.
  - intros (l & r & H).
    destruct (lower_split _ _ _ H) as (pre & rest & -> & _ & Hrest).
    destruct (lower_split _ _ _ Hrest) as (k & post & -> & Hk & _).
    exists pre, k, post. auto.
  - intros (pre & k & post & -> & Hk).
    exists (lower pre), (lower post). rewrite !lower_app, Hk. reflexivity.
Qed.

(** X2: when the template scores below the threshold and OCR fallback is
    set, the watch is found exactly when the text read has the keyword
    "skip" somewhere, in any case of its letters; it is then located at the
    middle of the capture rectangle, whatever the matcher's location, so
    that a pointer move goes to the rectangle's origin plus half its size
    plus half the template's size. *)
Theorem X2_ocr_keyword (b : backend) (lang : string) (item : ImageWatch)
    (mon : monitor) (frame bgr gray templ : ndarray) (score : float)
    (loc : Z * Z) (text : string) :
  select_mon b item = inr mon -> sct_grab b mon = inr frame ->
  first3 frame = inr bgr -> grayscale b bgr = inr gray ->
  template item = Some templ ->
  cv2_matchTemplate b gray templ (mask item) = inr (score, loc) ->
  (threshold item <=? score)%float = false -> ocr_fallback item = true ->
  image_to_string b frame lang = inr text ->
  (found_of b lang item = Some true
   <-> exists pre k post, text = (pre ++ k ++ post)%string /\ lower k = "skip")
  /\ (found_of b lang item = Some true ->
      outcome (locate b lang item)
      = inr (Some (mon, true, (mon_width mon / 2, mon_height mon / 2)))
      /\ (_triggered item = false -> move_mouse item = true ->
          In (EMoveTo (mon_left mon + mon_width mon / 2 + w item / 2)
                      (mon_top mon + mon_height mon / 2 + h item / 2)
                      (mouse_speed item))
             (snd (guarded_item b lang item)))).
Proof.
  intros Hmon Hgrab Hbgr Hgray Htempl Hmatch Hbelow Hocr Htext.
  pose proof (locate_matched b lang item mon frame bgr gray templ
                Hmon Hgrab Hbgr Hgray Htempl score loc Hmatch) as Hl.
  cbv zeta in Hl. rewrite Hbelow, Hocr, Htext in Hl. simpl in Hl.
  rewrite <- keyword_anywhere.
  unfold found_of. rewrite guarded_item_eq, Hl. cbv zeta. unfold outcome, trace.
  simpl.
  destruct (contains "skip" (lower text)); simpl.
  - split; [split; reflexivity|]. intros _. split; [reflexivity|].
    intros Ht Hm. rewrite Ht. unfold configured. simpl. rewrite Hm. simpl.
    do 4 right. left. reflexivity.
  - split; [split; discriminate | discriminate].
Qed.

Lemma X2_ocr_keyword_witness :
  found_of office "eng" ocr_watch = Some true
  /\ In (EMoveTo (0 + 100 / 2 + 20 / 2) (0 + 100 / 2 + 20 / 2) 0.0%float)
        (snd (guarded_item office "eng" ocr_watch)).
Proof.
  pose proof (X2_ocr_keyword office "eng" ocr_watch region100
                (zeros [100; 100; 4])
                {| shape := [100; 100; 3]; entry := fun _ => 0 |}
                (zeros [100; 100]) (zeros [20; 20]) 0.5%float (0, 0)
                "Press SKIP to continue") as H.
  do 9 (match type of H with
        | ?P -> _ => assert (Hp : P) by (vm_compute; reflexivity);
                     specialize (H Hp); clear Hp
        end).
  destruct H as [Hiff Hloc].
  assert (Hf : found_of office "eng" ocr_watch = Some true).
  { apply Hiff. exists "Press ", "SKIP", " to continue". split; reflexivity. }
  split; [exact Hf|].
  apply (proj2 (Hloc Hf)); reflexivity.
Defined.

(** ** A watch without actions *)

Lemma configured_none (item : ImageWatch) (cx cy : Z) :
  has_action item = false -> configured (set_triggered true item) cx cy = [].
Proof.
  unfold has_action, configured; simpl.
  destruct (move_mouse item), (click item), (truthy (press_key item)),
    (notify item), (truthy (sound item)), (truthy (window_title item));
    simpl; try discriminate; reflexivity.
Qed.

(** X3: [__init__] configures no action, the threshold 0.8, no region, no
    mask and no OCR fallback.  A watch without configured action makes no
    call of an action on any tick, yet a tick that finds it puts its flag
    up; so whatever the UI thread configures while the watch stays found,
    the next tick that finds it does not fire either. *)
Theorem X3_unconfigured_watch (lang : string) :
  (forall b p item,
     ImageWatch_init b p = inr item ->
     has_action item = false /\ threshold item = 0.8%float
     /\ region item = None /\ mask item = None /\ ocr_fallback item = false)
  /\ (forall b item,
       has_action item = false ->
       fired (snd (guarded_item b lang item)) = false
       /\ (found_of b lang item = Some true ->
           _triggered (fst (guarded_item b lang item)) = true))
  /\ (forall b1 b2 item ops,
       found_of b1 lang item = Some true ->
       found_of b2 lang (apply_uis ops (fst (guarded_item b1 lang item)))
       = Some true ->
       fired (snd (guarded_item b2 lang
                     (apply_uis ops (fst (guarded_item b1 lang item)))))
       = false).
Proof.
  split; [| split].
  - intros b p item. unfold ImageWatch_init.
    destruct (cv2_imread b p) as [img |].
    + destruct (grayscale b img) as [e | g]; [discriminate|].
      destruct (shape g) as [| hh [| ww tl]]; try discriminate.
      intros H. injection H as <-. repeat split.
    + intros H. injection H as <-. repeat split.
  - intros b item Ha.
    pose proof (step_flag b lang item) as Hflag.
    split; [| intros Hf; rewrite Hf in Hflag; exact Hflag].
    rewrite guarded_item_eq. cbv zeta.
    pose proof (locate_not_fired b lang item) as Hnf.
    destruct (outcome (locate b lang item)) as [e | [[[mon found] loc] |]];
      simpl; rewrite ?fired_app, ?Hnf; try reflexivity.
    destruct found; [destruct (_triggered item) |]; simpl;
      rewrite ?fired_app, ?Hnf; try reflexivity.
    rewrite configured_none by exact Ha. reflexivity.
  - intros b1 b2 item ops H1 H2.
    pose proof (step_flag b1 lang item) as Hflag. rewrite H1 in Hflag.
    set (item1 := fst (guarded_item b1 lang item)) in *.
    destruct (apply_uis_frame ops item1) as (Ht & _).
    destruct (fired (snd (guarded_item b2 lang (apply_uis ops item1)))) eqn:E;
      [| reflexivity].
    destruct (step_fired b2 lang (apply_uis ops item1) E) as [_ Hd].
    congruence.
Qed.

Lemma X3_unconfigured_watch_witness :
  fired (snd (guarded_item (calm 0.9 (1, 1)) "eng"
                (apply_uis [on_click_toggle 2]
                   (fst (guarded_item (calm 0.85 (40, 40)) "eng"
                           (apply_uis [on_click_toggle 0; on_move_toggle 0]
                              watch20))))))
  = false.
Proof.
  apply (proj2 (proj2 (X3_unconfigured_watch "eng"))); vm_compute; reflexivity.
Defined.

(** ** The threshold slider *)

Lemma in_slider_range (val : Z) : 1 <= val <= 100 -> In val slider_range.
Proof.
  intros H. unfold slider_range.
  replace val with (Z.of_nat (Z.to_nat val)) by lia.
  apply in_map, in_seq. lia.
Qed.

Lemma percent_ok (val : Z) : 1 <= val <= 100 -> threshold_ok (percent val) = true.
Proof.
  intros H.
  assert (Hall : forallb (fun v => threshold_ok (percent v)) slider_range = true)
    by (vm_compute; reflexivity).
  rewrite forallb_forall in Hall. apply Hall, in_slider_range, H.
Qed.

(** X4: the threshold of a watch is always one of the hundred values
    [val / 100.0] of the slider: [__init__] sets 0.8, which is 80 / 100.0,
    and the only handler that writes it stores a position of the slider
    divided by 100.0.  So it is never NaN, lies above 0 and is at most 1,
    and a score equal to it counts as found. *)
Theorem X4_threshold_range (b : backend) (p : string) (item : ImageWatch)
    (ops : list ui_op) :
  ImageWatch_init b p = inr item ->
  forallb slider_ok ops = true ->
  (exists val, 1 <= val <= 100
               /\ threshold (apply_uis ops item) = percent val)
  /\ threshold_ok (threshold (apply_uis ops item)) = true
  /\ (threshold (apply_uis ops item) <=? threshold (apply_uis ops item))%float
     = true.
Proof.
  intros Hinit Hops.
  assert (H0 : exists val, 1 <= val <= 100 /\ threshold item = percent val).
  { exists 80. split; [lia|].
    unfold ImageWatch_init in Hinit.
    destruct (cv2_imread b p) as [img |].
    - destruct (grayscale b img) as [e | g]; [discriminate|].
      destruct (shape g) as [| hh [| ww tl]]; try discriminate.
      injection Hinit as <-. vm_compute. reflexivity.
    - injection Hinit as <-. vm_compute. reflexivity. }
  clear Hinit.
  assert (Hinv : exists val, 1 <= val <= 100
                             /\ threshold (apply_uis ops item) = percent val).
  { unfold apply_uis. revert item H0.
    induction ops as [| op ops IH]; intros item H0; simpl; [exact H0|].
    simpl in Hops. apply andb_true_iff in Hops. destruct Hops as [Hop Hops].
    apply (IH Hops).
    destruct op; simpl; try exact H0;
      try (destruct (String.eqb file ""); exact H0).
    simpl in Hop. exists val. split; [lia | reflexivity]. }
  split; [exact Hinv|].
  destruct Hinv as (val & Hval & ->).
  pose proof (percent_ok val Hval) as Hok.
  split; [exact Hok|].
  apply leb_refl. unfold threshold_ok in Hok.
  apply andb_true_iff in Hok. destruct Hok as [Hok _].
  apply andb_true_iff in Hok. destruct Hok as [Hok _].
  apply negb_true_iff, Hok.
Qed.

Lemma X4_threshold_range_witness :
  (exists val, 1 <= val <= 100
               /\ threshold (apply_uis [on_sensitivity 29; on_click_toggle 2]
                               inert_watch) = percent val)
  /\ threshold_ok (threshold (apply_uis [on_sensitivity 29; on_click_toggle 2]
                                inert_watch)) = true
  /\ (threshold (apply_uis [on_sensitivity 29; on_click_toggle 2] inert_watch)
      <=? threshold (apply_uis [on_sensitivity 29; on_click_toggle 2]
                       inert_watch))%float = true.
Proof.
  apply (X4_threshold_range (calm 0.5 (0, 0)) "missing.png" inert_watch
           [on_sensitivity 29; on_click_toggle 2]); reflexivity.
Defined.

(** X5: the slider does not always come back to where it was.  For a
    threshold that [_on_sensitivity] stored from the position [val],
    [_on_select] computes the position [int(threshold * 100)]: it is [val]
    again for every position of the slider but 29, 57 and 58, for which it
    is one lower, so that storing it again lowers the threshold by a
    hundredth.  The threshold 0.8 of [__init__] gives the position 80. *)
Theorem X5_slider_round_trip (item : ImageWatch) (val : Z) :
  1 <= val <= 100 ->
  slider_position (apply_ui item (on_sensitivity val))
  = inr (if drifts val then val - 1 else val)
  /\ (drifts val = true ->
      exists back,
        slider_position (apply_ui item (on_sensitivity val)) = inr back
        /\ (threshold (apply_ui item (on_sensitivity back))
            <? threshold (apply_ui item (on_sensitivity val)))%float = true)
  /\ (forall b p fresh, ImageWatch_init b p = inr fresh ->
      slider_position fresh = inr 80).
Proof.
  intros Hval.
  assert (Hall : forallb
                   (fun v =>
                      match int_of_float (percent v * 100)%float with
                      | inr k => Z.eqb k (if drifts v then v - 1 else v)
                                 && (negb (drifts v)
                                     || (percent (v - 1) <? percent v)%float)
                      | inl _ => false
                      end) slider_range = true)
    by (vm_compute; reflexivity).
  rewrite forallb_forall in Hall.
  specialize (Hall val (in_slider_range val Hval)).
  unfold slider_position.
  change (threshold (apply_ui item (on_sensitivity val))) with (percent val).
  destruct (int_of_float (percent val * 100)%float) as [e | k];
    [discriminate|].
  apply andb_true_iff in Hall. destruct Hall as [Hk Hlt].
  apply Z.eqb_eq in Hk. subst k.
  split; [reflexivity | split].
  - intros Hd. rewrite Hd in *. simpl in Hlt.
    exists (val - 1). split; [reflexivity | exact Hlt].
  - intros b p fresh Hinit. unfold ImageWatch_init in Hinit.
    destruct (cv2_imread b p) as [img |].
    + destruct (grayscale b img) as [e | g]; [discriminate|].
      destruct (shape g) as [| hh [| ww tl]]; try discriminate.
      injection Hinit as <-. vm_compute. reflexivity.
    + injection Hinit as <-. vm_compute. reflexivity.
Qed.

Lemma X5_slider_round_trip_witness :
  slider_position (apply_ui watch20 (on_sensitivity 29)) = inr 28
  /\ slider_position (apply_ui watch20 (on_sensitivity 30)) = inr 30.
Proof.
  split.
  - apply (proj1 (X5_slider_round_trip watch20 29 ltac:(lia))).
  - apply (proj1 (X5_slider_round_trip watch20 30 ltac:(lia))).
Defined.

(** ** Runs *)

Lemma loop_down (envs : list tick_env) (th : MonitorThread) :
  running th = false -> loop envs th = (Returned, th, [LWhile false]).
Proof. intros H. destruct envs; simpl; rewrite H; reflexivity. Qed.

Lemma loop_plays (envs : list tick_env) (j : nat) :
  forall th, running th = true ->
  fst (fst (loop envs th))
  = (if stop_asked envs then Returned else StillRunning)
  /\ nth_error (watch_list (snd (fst (loop envs th)))) j
     = option_map
         (fun item =>
            fst (watch_life (ocr_lang th) (steps_of (played envs) j) item))
         (nth_error (watch_list th) j)
  /\ item_traces j (snd (loop envs th))
     = match nth_error (watch_list th) j with
       | Some item =>
           snd (watch_life (ocr_lang th) (steps_of (played envs) j) item)
       | None => []
       end
  /\ whiles (snd (loop envs th))
     = repeat true (List.length (played envs))
         ++ (if stop_asked envs then [false] else []).
Proof.
  induction envs as [| env rest IH]; intros th Hr; simpl; rewrite Hr.
  - simpl. destruct (nth_error (watch_list th) j); auto.
  - destruct (iteration_nth env th j) as (H1 & H2 & H3).
    destruct (stopped_readings env th) as (Hw & _).
    destruct (iteration_shape env th) as (_ & _ & _ & _ & _ & _ & _ & Hrun).
    pose proof (iteration_stopped env th) as Hstop.
    destruct (iteration env th) as [th1 l1]. simpl in *.
    destruct (stop_request env) as [k |] eqn:Ek; simpl.
    + rewrite (loop_down rest th1 (Hstop k eq_refl)). simpl.
      rewrite item_traces_app, whiles_app, H1, H2, Hw. simpl.
      destruct (nth_error (watch_list th) j) as [item |]; simpl; [| auto].
      destruct (do_step (ocr_lang th) item (ui_writes env j, answers env j))
        as [item1 t].
      auto.
    + destruct (IH th1) as (IH1 & IH2 & IH3 & IH4);
        [rewrite Hrun; auto|].
      destruct (loop rest th1) as [[e th2] l2]. simpl in *.
      rewrite item_traces_app, whiles_app, H2, Hw, IH1, IH2, IH3, IH4, H1, H3.
      destruct (nth_error (watch_list th) j) as [item |]; simpl; [| auto].
      destruct (do_step (ocr_lang th) item (ui_writes env j, answers env j))
        as [item1 t].
      simpl.
      destruct (watch_life (ocr_lang th) (steps_of (played rest) j) item1)
        as [item2 ts].
      simpl. auto.
Qed.

Lemma shared_loop_down (envs : list shared_env) (th : MonitorThread) :
  running th = false -> shared_loop envs th = (Returned, th, [LWhile false]).
Proof. intros H. destruct envs; simpl; rewrite H; reflexivity. Qed.

(** Without a change of the list the loop over the shared list is the loop
    over the thread's own. *)
Lemma shared_loop_unchanged (envs : list shared_env) :
  Forall (fun env => list_changes env = []) envs ->
  forall th, shared_loop envs th = loop (map tick envs) th.
Proof.
  induction 1 as [| env rest Henv _ IH]; intros th; simpl; [reflexivity|].
  unfold shared_iteration. rewrite Henv. simpl.
  replace (set_watch_list (watch_list th) th) with th
    by (destruct th; reflexivity).
  destruct (running th); [| reflexivity].
  destruct (iteration (tick env) th) as [th1 l1].
  rewrite IH. reflexivity.
Qed.

(** The list may change: the loop still ends with the first request to
    stop. *)
Lemma shared_loop_ends (envs : list shared_env) :
  forall th, running th = true ->
  fst (fst (shared_loop envs th))
  = (if stop_asked (map tick envs) then Returned else StillRunning)
  /\ whiles (snd (shared_loop envs th))
     = repeat true (List.length (played (map tick envs)))
         ++ (if stop_asked (map tick envs) then [false] else []).
Proof.
  induction envs as [| env rest IH]; intros th Hr; simpl; rewrite Hr.
  - simpl. auto.
  - unfold shared_iteration.
    set (th0 := set_watch_list _ th).
    assert (Hr0 : running th0 = true) by exact Hr.
    destruct (stopped_readings (tick env) th0) as (Hw & _).
    destruct (iteration_shape (tick env) th0)
      as (_ & _ & _ & _ & _ & _ & _ & Hrun).
    pose proof (iteration_stopped (tick env) th0) as Hstop.
    destruct (iteration (tick env) th0) as [th1 l1]. simpl in *.
    destruct (stop_request (tick env)) as [k |] eqn:Ek; simpl.
    + rewrite (shared_loop_down rest th1 (Hstop k eq_refl)). simpl.
      rewrite whiles_app, Hw. simpl. auto.
    + destruct (IH th1) as (IH1 & IH2); [rewrite Hrun; auto|].
      destruct (shared_loop rest th1) as [[e th2] l2]. simpl in *.
      rewrite whiles_app, Hw, IH1, IH2. simpl. auto.
Qed.

(** The watch that takes the place of a removed one has its own life
    behind it, not the life of the place. *)
Lemma shared_run_removal :
  nth_error
    (watch_list
       (snd (fst (shared_run ticks_with_removal
                    (MonitorThread_default [watch20; tall_watch]))))) 0
  = Some (fst (watch_life "eng"
                 (steps_of (map tick ticks_with_removal) 0) tall_watch))
  /\ item_traces 0
       (snd (shared_run ticks_with_removal
               (MonitorThread_default [watch20; tall_watch])))
     <> snd (watch_life "eng"
               (steps_of (map tick ticks_with_removal) 0) watch20).
Proof. split; [vm_compute; reflexivity | vm_compute; discriminate]. Qed.

(** X6: [run] plays the iterations up to and including the first during
    which the UI thread asks to stop, and returns then; without such a
    request it is still running when the iterations given are used up.  It
    tests the flag once per iteration played and once more to return.  So
    far whatever the UI thread does to the list the thread shares with the
    window.  When the UI thread adds no watch to the list and removes none
    from it while the thread runs, the run is the run over the thread's own
    list, and it takes the watch at every place of the list through its own
    life: the steps of the iterations played, whatever flag the thread had
    before [run] set it. *)
Theorem X6_run_plays (envs : list shared_env) (th : MonitorThread) (j : nat) :
  fst (fst (shared_run envs th))
  = (if stop_asked (map tick envs) then Returned else StillRunning)
  /\ whiles (snd (shared_run envs th))
     = repeat true (List.length (played (map tick envs)))
         ++ (if stop_asked (map tick envs) then [false] else [])
  /\ (Forall (fun env => list_changes env = []) envs ->
      shared_run envs th = run (map tick envs) th
      /\ nth_error (watch_list (snd (fst (shared_run envs th)))) j
         = option_map
             (fun item =>
                fst (watch_life (ocr_lang th)
                       (steps_of (played (map tick envs)) j) item))
             (nth_error (watch_list th) j)
      /\ item_traces j (snd (shared_run envs th))
         = match nth_error (watch_list th) j with
           | Some item =>
               snd (watch_life (ocr_lang th)
                      (steps_of (played (map tick envs)) j) item)
           | None => []
           end).
Proof.
  split; [| split].
  - unfold shared_run.
    destruct (shared_loop_ends envs (set_running true th) eq_refl) as (H1 & _).
    destruct (shared_loop envs (set_running true th)) as [[e th'] l].
    exact H1.
  - unfold shared_run.
    destruct (shared_loop_ends envs (set_running true th) eq_refl) as (_ & H2).
    destruct (shared_loop envs (set_running true th)) as [[e th'] l].
    exact H2.
  - intros Hq.
    assert (Hrun : shared_run envs th = run (map tick envs) th).
    { unfold shared_run, run. rewrite (shared_loop_unchanged envs Hq).
      reflexivity. }
    rewrite Hrun. split; [reflexivity|].
    unfold run.
    destruct (loop_plays (map tick envs) j (set_running true th) eq_refl)
      as (_ & H2 & H3 & _).
    destruct (loop (map tick envs) (set_running true th)) as [[e th'] l].
    simpl in *. auto.
Qed.

Lemma X6_run_plays_witness :
  fst (fst (shared_run ticks_with_removal (MonitorThread_default [watch20])))
  = StillRunning
  /\ shared_run (map unchanged stopping_tick) (MonitorThread_default [watch20])
     = run stopping_tick (MonitorThread_default [watch20])
  /\ item_traces 0
       (snd (shared_run (map unchanged stopping_tick)
               (MonitorThread_default [watch20])))
     = snd (watch_life "eng" (steps_of stopping_tick 0) watch20).
Proof.
  split.
  - exact (proj1 (X6_run_plays ticks_with_removal
                    (MonitorThread_default [watch20]) 0)).
  - destruct (X6_run_plays (map unchanged stopping_tick)
                (MonitorThread_default [watch20]) 0)
      as (_ & _ & H).
    destruct (H ltac:(repeat constructor)) as (H1 & _ & H3).
    split; [exact H1 | exact H3].
Defined.

(** X7: stopping and starting again does not put a flag down.
    [_on_toggle] starts a new thread over the same watches, and neither
    [__init__] nor [run] writes [_triggered] before the first tick; so a
    watch whose flag is up when the first thread has returned, and which
    every tick of the second thread finds, raises before line 110 or skips,
    makes no call of an action at all under the second thread. *)
Theorem X7_restart_keeps_flags (envs1 envs2 : list tick_env)
    (wl : list ImageWatch) (j : nat) (item : ImageWatch) :
  let th1 := snd (fst (run envs1 (MonitorThread_default wl))) in
  nth_error (watch_list th1) j = Some item ->
  _triggered item = true ->
  unbroken "eng" (steps_of (played envs2) j) item = true ->
  fires (item_traces j (snd (run envs2 (restart th1)))) = 0%nat.
Proof.
  intros th1 Hj Ht Hu. unfold run.
  destruct (loop_plays envs2 j (set_running true (restart th1)) eq_refl)
    as (_ & _ & H3 & _).
  destruct (loop envs2 (set_running true (restart th1))) as [[e th'] l].
  simpl in *. rewrite H3, Hj.
  apply (unbroken_fires "eng" _ item Hu), Ht.
Qed.

Lemma X7_restart_keeps_flags_witness :
  fires (item_traces 0
           (snd (run second_session
                   (restart (snd (fst (run first_session
                                         (MonitorThread_default [watch20]))))))))
  = 0%nat.
Proof.
  apply (X7_restart_keeps_flags first_session second_session [watch20] 0%nat
           (set_triggered true watch20)); vm_compute; reflexivity.
Defined.

(** ** One tick, watch by watch *)

(** X8: what a tick does to a watch depends on that watch, on the UI
    thread's writes to it and on the backends' answers for it alone: the
    other watches of the list, the exceptions they raise and a request to
    stop change neither the watch after the tick nor the calls made for
    it. *)
Theorem X8_tick_isolation (env env' : tick_env) (lang : string)
    (items items' : list ImageWatch) (flag flag' : bool) (j : nat) :
  nth_error items j = nth_error items' j ->
  ui_writes env j = ui_writes env' j ->
  answers env j = answers env' j ->
  nth_error (fst (fst (for_items env lang 0 items flag))) j
  = nth_error (fst (fst (for_items env' lang 0 items' flag'))) j
  /\ item_traces j (snd (for_items env lang 0 items flag))
     = item_traces j (snd (for_items env' lang 0 items' flag')).
Proof.
  intros Hi Hw Ha.
  destruct (for_items_nth env lang items 0%nat flag j) as (H1 & H2 & _).
  destruct (for_items_nth env' lang items' 0%nat flag' j) as (H1' & H2' & _).
  simpl in *. rewrite H1, H2, H1', H2', Hi, Hw, Ha. auto.
Qed.

Lemma X8_tick_isolation_witness :
  nth_error (fst (fst (for_items (one_tick 1.0 1.03 (calm 0.85 (40, 40)) None)
                         "eng" 0 [tall_watch; watch20] true))) 1
  = nth_error (fst (fst (for_items
                           (one_tick 5.0 5.5 (calm 0.85 (40, 40)) (Some 0%nat))
                           "eng" 0 [inert_watch; watch20; watch20] false))) 1
  /\ item_traces 1
       (snd (for_items (one_tick 1.0 1.03 (calm 0.85 (40, 40)) None)
               "eng" 0 [tall_watch; watch20] true))
     = item_traces 1
         (snd (for_items (one_tick 5.0 5.5 (calm 0.85 (40, 40)) (Some 0%nat))
                 "eng" 0 [inert_watch; watch20; watch20] false)).
Proof.
  apply (X8_tick_isolation
           (one_tick 1.0 1.03 (calm 0.85 (40, 40)) None)
           (one_tick 5.0 5.5 (calm 0.85 (40, 40)) (Some 0%nat))
           "eng" [tall_watch; watch20] [inert_watch; watch20; watch20]
           true false 1%nat); reflexivity.
Defined.

(** ** MainWindow: rows and list *)

Lemma nth_error_without {A} (n : nat) :
  forall (l : list A) (i : nat),
    nth_error (without n l) i = nth_error l (if Nat.ltb i n then i else S i).
Proof.
  unfold without. induction n as [| n IH]; intros l i.
  - destruct l; simpl; [destruct i; reflexivity | reflexivity].
  - destruct l as [| x l]; simpl.
    + destruct i; simpl; [reflexivity|].
      match goal with |- context [if ?c then _ else _] => destruct c end;
        reflexivity.
    + destruct i as [| i]; simpl; [reflexivity|].
      rewrite IH.
      change (Nat.ltb (S i) (S n)) with (Nat.ltb i n).
      destruct (Nat.ltb i n); reflexivity.
Qed.

Lemma without_map {A B} (f : A -> B) (n : nat) (l : list A) :
  map f (without n l) = without n (map f l).
Proof. unfold without. rewrite map_app, firstn_map, skipn_map. reflexivity. Qed.

Lemma without_incl {A} (n : nat) (l : list A) (x : A) :
  In x (without n l) -> In x l.
Proof.
  intros H. apply In_nth_error in H. destruct H as [i H].
  rewrite nth_error_without in H. eapply nth_error_In, H.
Qed.

Lemma without_NoDup {A} (n : nat) (l : list A) : NoDup l -> NoDup (without n l).
Proof.
  unfold without. intros H. rewrite <- (firstn_skipn n l) in H.
  destruct (skipn n l) as [| x tl] eqn:E.
  - replace (skipn (S n) l) with (@nil A); [exact H|].
    symmetry. apply skipn_all2.
    assert (List.length (skipn n l) = 0%nat) by (rewrite E; reflexivity).
    rewrite length_skipn in H0. lia.
  - replace (skipn (S n) l) with tl; [eapply NoDup_remove_1, H|].
    change (S n) with (1 + n)%nat. rewrite <- skipn_skipn, E. reflexivity.
Qed.

Lemma update_length {A} (f : A -> A) (l : list A) :
  forall n, List.length (update n f l) = List.length l.
Proof.
  induction l as [| x l IH]; intros [| n]; simpl; auto.
Qed.

Lemma nth_error_update {A} (f : A -> A) (l : list A) :
  forall n i,
    nth_error (update n f l) i
    = if Nat.eqb n i then option_map f (nth_error l i) else nth_error l i.
Proof.
  induction l as [| x l IH]; intros [| n] [| i]; simpl; try reflexivity.
  - destruct (Nat.eqb n i); reflexivity.
  - apply IH.
Qed.

Lemma update_same {A} (f : A -> A) (l : list A) :
  forall n x, nth_error l n = Some x -> f x = x -> update n f l = l.
Proof.
  induction l as [| y l IH]; intros [| n] x H Hf; simpl in *; try discriminate.
  - injection H as ->. rewrite Hf. reflexivity.
  - rewrite (IH n x H Hf). reflexivity.
Qed.

Lemma aligned_init : aligned MainWindow_init.
Proof. repeat split; constructor. Qed.

Lemma on_add_aligned (b : backend) (paths : list string) :
  forall mw, aligned mw -> aligned (fst (on_add b paths mw)).
Proof.
  induction paths as [| p rest IH]; intros mw Ha; simpl; [exact Ha|].
  destruct (ImageWatch_init b p) as [e | item]; [exact Ha|].
  apply IH. destruct Ha as (H1 & H2 & H3). unfold aligned; simpl.
  rewrite map_app, H1, length_app. simpl.
  split; [reflexivity | split].
  - apply NoDup_app; [exact H2 | repeat constructor; intros [] |].
    intros x Hx [<- | []]. rewrite Forall_forall in H3.
    specialize (H3 _ Hx). lia.
  - apply Forall_app. split; [| repeat constructor; lia].
    eapply Forall_impl; [| exact H3]. simpl. intros; lia.
Qed.

Lemma on_remove_aligned (row : Z) (mw : MainWindow) :
  aligned mw -> aligned (fst (on_remove row mw)).
Proof.
  intros Ha. unfold on_remove.
  destruct (0 <=? row)%Z; [| exact Ha].
  destruct (row <? _)%Z; [| exact Ha].
  destruct Ha as (H1 & H2 & H3). unfold aligned; simpl.
  rewrite without_map, H1.
  split; [reflexivity | split; [apply without_NoDup, H2|]].
  rewrite Forall_forall in *. intros x Hx. apply H3.
  eapply without_incl, Hx.
Qed.

Lemma write_current_aligned (cur : option nat) (op : ui_op) (mw : MainWindow) :
  aligned mw -> aligned (write_current cur op mw).
Proof.
  intros Ha. unfold write_current.
  destruct cur as [row |]; [| exact Ha].
  destruct (nth_error (list_widget mw) row) as [[label ref] |]; [| exact Ha].
  destruct Ha as (H1 & H2 & H3). unfold aligned; simpl.
  rewrite update_length. auto.
Qed.

Lemma on_region_text_aligned (int_of_str : string -> res Z)
    (cur : option nat) (text : string) (mw : MainWindow) :
  aligned mw -> aligned (on_region_text int_of_str cur text mw).
Proof.
  intros Ha. unfold on_region_text.
  destruct cur as [row |]; [| exact Ha].
  destruct (nth_error (list_widget mw) row); [| exact Ha].
  destruct (map_int int_of_str (split_on "," text))
    as [e | [| x [| y [| rw [| rh [| extra tl]]]]]]; try exact Ha.
  apply write_current_aligned, Ha.
Qed.

Lemma handle_aligned (int_of_str : string -> res Z) (mw : MainWindow)
    (c : ui_call) :
  aligned mw -> aligned (handle int_of_str mw c).
Proof.
  destruct c; simpl.
  - apply on_add_aligned.
  - apply on_remove_aligned.
  - apply write_current_aligned.
  - apply on_region_text_aligned.
Qed.

Lemma aligned_rows (mw : MainWindow) (i : nat) :
  aligned mw -> row_watch mw i = listed_watch mw i.
Proof.
  intros (H1 & _). unfold row_watch, listed_watch.
  rewrite <- H1, nth_error_map.
  destruct (nth_error (list_widget mw) i) as [[label ref] |]; reflexivity.
Qed.

(** X9: from the empty window on, whatever the handlers are called with,
    the rows of the list widget and [self.watch_list] go together: the
    data of row [i] is the watch at place [i] of the list, no watch is
    there twice and every row has its watch.  So [_on_remove], for the
    current row Qt reports, never raises out of [list.pop]; it takes the
    watch of that row, and no other, out of the list and the rows, the
    later ones moving up. *)
Theorem X9_rows_and_list (int_of_str : string -> res Z) (calls : list ui_call) :
  let mw := session int_of_str calls in
  aligned mw
  /\ (forall i, row_watch mw i = listed_watch mw i)
  /\ (forall i, (i < List.length (list_widget mw))%nat ->
      exists item, row_watch mw i = Some item)
  /\ (forall row,
      (-1 <= row < Z.of_nat (List.length (list_widget mw)))%Z ->
      snd (on_remove row mw) = None
      /\ ((0 <= row)%Z ->
          forall i,
            listed_watch (fst (on_remove row mw)) i
            = listed_watch mw (if Nat.ltb i (Z.to_nat row) then i else S i)
            /\ row_watch (fst (on_remove row mw)) i
               = row_watch mw (if Nat.ltb i (Z.to_nat row) then i else S i))).
Proof.
  intros mw.
  assert (Ha : aligned mw).
  { unfold mw, session. generalize aligned_init.
    generalize MainWindow_init.
    induction calls as [| c calls IH]; intros mw0 H0; simpl; [exact H0|].
    apply IH, handle_aligned, H0. }
  split; [exact Ha | split; [intros i; apply aligned_rows, Ha | split]].
  - intros i Hi. rewrite (aligned_rows mw i Ha). unfold listed_watch.
    destruct Ha as (H1 & _ & H3).
    assert (Hlen : (i < List.length (window_watch_list mw))%nat)
      by (rewrite <- H1, length_map; exact Hi).
    destruct (nth_error (window_watch_list mw) i) as [ref |] eqn:E;
      [| apply nth_error_None in E; lia].
    rewrite Forall_forall in H3.
    specialize (H3 ref (nth_error_In _ _ E)).
    destruct (nth_error (objects mw) ref) as [item |] eqn:Eo;
      [eauto | apply nth_error_None in Eo; lia].
  - intros row Hrow.
    assert (Hlen : List.length (window_watch_list mw)
                   = List.length (list_widget mw))
      by (destruct Ha as (H1 & _); rewrite <- H1, length_map; reflexivity).
    unfold on_remove. rewrite Hlen.
    destruct (0 <=? row)%Z eqn:E0; simpl.
    + replace (row <? Z.of_nat (List.length (list_widget mw)))%Z with true
        by (symmetry; apply Z.ltb_lt; lia).
      simpl. split; [reflexivity|]. intros _ i.
      unfold listed_watch, row_watch; simpl.
      rewrite !nth_error_without. auto.
    + split; [reflexivity|]. apply Z.leb_gt in E0. lia.
Qed.

Lemma X9_rows_and_list_witness :
  snd (on_remove 0
         (session (fun _ => inl "invalid literal")
            [Add (calm 0.5 (0, 0)) ["C:/img/a.png"; "C:/img/b.png"];
             Write (Some 1%nat) (on_click_toggle 2)])) = None
  /\ listed_watch
       (fst (on_remove 0
               (session (fun _ => inl "invalid literal")
                  [Add (calm 0.5 (0, 0)) ["C:/img/a.png"; "C:/img/b.png"];
                   Write (Some 1%nat) (on_click_toggle 2)]))) 0
     = listed_watch
         (session (fun _ => inl "invalid literal")
            [Add (calm 0.5 (0, 0)) ["C:/img/a.png"; "C:/img/b.png"];
             Write (Some 1%nat) (on_click_toggle 2)]) 1.
Proof.
  destruct (X9_rows_and_list (fun _ => inl "invalid literal")
              [Add (calm 0.5 (0, 0)) ["C:/img/a.png"; "C:/img/b.png"];
               Write (Some 1%nat) (on_click_toggle 2)])
    as (_ & _ & _ & Hrm).
  destruct (Hrm 0) as [Hnone Hshift]; [vm_compute; split; congruence|].
  split; [exact Hnone|].
  apply (proj1 (Hshift ltac:(lia) 0%nat)).
Defined.

(** X10: a handler that writes an attribute writes it to the watch of the
    current row and to no other: the watch of every other row, the list
    and the rows are as before, and without current item nothing is
    written at all. *)
Theorem X10_write_current (mw : MainWindow) (row : nat) (op : ui_op) :
  aligned mw ->
  row_watch (write_current (Some row) op mw) row
  = option_map (fun item => apply_ui item op) (row_watch mw row)
  /\ (forall i, i <> row ->
      row_watch (write_current (Some row) op mw) i = row_watch mw i)
  /\ window_watch_list (write_current (Some row) op mw) = window_watch_list mw
  /\ list_widget (write_current (Some row) op mw) = list_widget mw
  /\ write_current None op mw = mw.
Proof.
  intros (H1 & H2 & H3). unfold write_current, row_watch.
  destruct (nth_error (list_widget mw) row) as [[label ref] |] eqn:Er;
    simpl; [| rewrite Er; auto].
  rewrite Er, nth_error_update, Nat.eqb_refl.
  split; [reflexivity | split; [| auto]].
  intros i Hi.
  destruct (nth_error (list_widget mw) i) as [[label' ref'] |] eqn:Ei;
    [| reflexivity].
  rewrite nth_error_update.
  destruct (Nat.eqb ref ref') eqn:E; [| reflexivity].
  apply Nat.eqb_eq in E. subst ref'. exfalso. apply Hi.
  rewrite NoDup_nth_error in H2. apply H2.
  - rewrite <- H1, length_map. apply nth_error_Some. congruence.
  - rewrite <- H1, !nth_error_map, Er, Ei. reflexivity.
Qed.

Lemma X10_write_current_witness :
  row_watch
    (write_current (Some 1%nat) (on_click_toggle 2)
       (fst (on_add (calm 0.5 (0, 0)) ["a.png"; "b.png"] MainWindow_init))) 0
  = row_watch
      (fst (on_add (calm 0.5 (0, 0)) ["a.png"; "b.png"] MainWindow_init)) 0.
Proof.
  apply (X10_write_current
           (fst (on_add (calm 0.5 (0, 0)) ["a.png"; "b.png"] MainWindow_init))
           1%nat (on_click_toggle 2)).
  - apply on_add_aligned, aligned_init.
  - discriminate.
Defined.

(** ** What no handler undoes *)

Lemma kept_refl (a : ImageWatch) : well_set a -> kept a a.
Proof.
  intros Hw. unfold kept. repeat split; auto.
  intros Hs. unfold well_set in Hw. unfold truthy.
  destruct (sound a) as [s |]; [| congruence].
  destruct (String.eqb s "") eqn:E; [| reflexivity].
  apply String.eqb_eq in E. congruence.
Qed.

Lemma kept_trans (a b c : ImageWatch) : kept a b -> kept b c -> kept a c.
Proof.
  unfold kept.
  intros (A1 & A2 & A3 & A4 & A5 & A6 & A7)
         (B1 & B2 & B3 & B4 & B5 & B6 & B7).
  repeat split; try congruence; auto.
  - intros Hs. apply B7. specialize (A7 Hs).
    destruct (sound b); [discriminate | discriminate].
Qed.

Lemma apply_ui_kept (a : ImageWatch) (op : ui_op) :
  well_set a -> kept a (apply_ui a op) /\ well_set (apply_ui a op).
Proof.
  intros Hw. pose proof (kept_refl a Hw) as Hr.
  unfold kept, well_set in *.
  destruct Hr as (_ & _ & _ & _ & _ & _ & R7).
  destruct op; simpl;
    try (destruct (String.eqb file "") eqn:E; simpl);
    repeat split; auto; try discriminate.
  - rewrite E. reflexivity.
  - intros H. injection H as ->. discriminate.
Qed.

Lemma handle_kept (int_of_str : string -> res Z) (mw : MainWindow)
    (c : ui_call) (ref : nat) (item : ImageWatch) :
  nth_error (objects mw) ref = Some item -> well_set item ->
  exists item',
    nth_error (objects (handle int_of_str mw c)) ref = Some item'
    /\ kept item item' /\ well_set item'.
Proof.
  intros Hn Hw.
  assert (Hwrite : forall cur op,
            exists item',
              nth_error (objects (write_current cur op mw)) ref = Some item'
              /\ kept item item' /\ well_set item').
  { intros cur op. unfold write_current.
    destruct cur as [row |]; [| exists item; auto using kept_refl].
    destruct (nth_error (list_widget mw) row) as [[label r] |];
      [| exists item; auto using kept_refl].
    simpl. rewrite nth_error_update, Hn.
    destruct (Nat.eqb r ref); simpl;
      [| exists item; auto using kept_refl].
    exists (apply_ui item op). split; [reflexivity | apply apply_ui_kept, Hw]. }
  destruct c as [b paths | row | cur op | cur text]; simpl.
  - clear Hwrite. revert mw Hn.
    induction paths as [| p rest IH]; intros mw Hn; simpl.
    + exists item. auto using kept_refl.
    + destruct (ImageWatch_init b p) as [e | fresh]; simpl;
        [exists item; auto using kept_refl|].
      apply IH. simpl. rewrite nth_error_app1; [exact Hn|].
      apply nth_error_Some. congruence.
  - unfold on_remove. destruct (0 <=? row)%Z; [| exists item; auto using kept_refl].
    destruct (row <? _)%Z; exists item; auto using kept_refl.
  - apply Hwrite.
  - unfold on_region_text.
    destruct cur as [row |]; [| exists item; auto using kept_refl].
    destruct (nth_error (list_widget mw) row);
      [| exists item; auto using kept_refl].
    destruct (map_int int_of_str (split_on "," text))
      as [e | [| x [| y [| rw [| rh [| extra tl]]]]]];
      try solve [exists item; auto using kept_refl].
    apply Hwrite.
Qed.

Lemma Forall_update {A} (P : A -> Prop) (f : A -> A) (l : list A) :
  (forall x, P x -> P (f x)) -> forall n, Forall P l -> Forall P (update n f l).
Proof.
  intros Hf. induction l as [| x l IH]; intros [| n] H; simpl;
    inversion H; subst; constructor; auto.
Qed.

Lemma handle_well_set (int_of_str : string -> res Z) (mw : MainWindow)
    (c : ui_call) :
  Forall well_set (objects mw) ->
  Forall well_set (objects (handle int_of_str mw c)).
Proof.
  intros Hall.
  assert (Hwrite : forall cur op,
            Forall well_set (objects (write_current cur op mw))).
  { intros cur op. unfold write_current.
    destruct cur as [row |]; [| exact Hall].
    destruct (nth_error (list_widget mw) row) as [[label r] |]; [| exact Hall].
    simpl. apply Forall_update; [| exact Hall].
    intros x Hx. apply apply_ui_kept, Hx. }
  destruct c as [b paths | row | cur op | cur text]; simpl.
  - clear Hwrite. revert mw Hall.
    induction paths as [| p rest IH]; intros mw Hall; simpl; [exact Hall|].
    destruct (ImageWatch_init b p) as [e | fresh] eqn:Ei; simpl; [exact Hall|].
    apply IH. simpl. apply Forall_app. split; [exact Hall|].
    repeat constructor. unfold well_set.
    unfold ImageWatch_init in Ei.
    destruct (cv2_imread b p) as [img |].
    + destruct (grayscale b img) as [e | g]; [discriminate|].
      destruct (shape g) as [| hh [| ww tl]]; try discriminate.
      injection Ei as <-. discriminate.
    + injection Ei as <-. discriminate.
  - unfold on_remove. destruct (0 <=? row)%Z; [| exact Hall].
    destruct (row <? _)%Z; exact Hall.
  - apply Hwrite.
  - unfold on_region_text.
    destruct cur as [row |]; [| exact Hall].
    destruct (nth_error (list_widget mw) row); [| exact Hall].
    destruct (map_int int_of_str (split_on "," text))
      as [e | [| x [| y [| rw [| rh [| extra tl]]]]]]; try exact Hall.
    apply Hwrite.
Qed.

Lemma calls_kept (int_of_str : string -> res Z) (calls : list ui_call) :
  forall mw ref item,
    nth_error (objects mw) ref = Some item -> well_set item ->
    exists item',
      nth_error (objects (fold_left (handle int_of_str) calls mw)) ref
      = Some item'
      /\ kept item item'.
Proof.
  induction calls as [| c calls IH]; intros mw ref item Hn Hw; simpl.
  - exists item. auto using kept_refl.
  - destruct (handle_kept int_of_str mw c ref item Hn Hw)
      as (item1 & H1 & Hk1 & Hw1).
    destruct (IH _ ref item1 H1 Hw1) as (item2 & H2 & Hk2).
    exists item2. split; [exact H2 | eapply kept_trans; eassumption].
Qed.

Lemma session_well_set (int_of_str : string -> res Z) (calls : list ui_call) :
  Forall well_set (objects (session int_of_str calls)).
Proof.
  unfold session.
  assert (H0 : Forall well_set (objects MainWindow_init)) by constructor.
  revert H0. generalize MainWindow_init.
  induction calls as [| c calls IH]; intros mw0 H0; simpl; [exact H0|].
  apply IH, handle_well_set, H0.
Qed.

(** X11: no handler takes back what is set.  Whatever the handlers are
    called with after a watch exists, the watch still exists (removed from
    the list or not), with the file, template, width and height of its
    creation and the flag the loop gave it; and a region or a sound file,
    once set, stays set: the watch does not go back to capturing the whole
    monitor, nor to firing without sound.  (A mask is not kept so:
    [_browse_mask] stores [None] for a file that does not decode.) *)
Theorem X11_never_undone (int_of_str : string -> res Z)
    (before after : list ui_call) (ref : nat) (item : ImageWatch) :
  nth_error (objects (session int_of_str before)) ref = Some item ->
  exists item',
    nth_error (objects (fold_left (handle int_of_str) after
                          (session int_of_str before))) ref
    = Some item'
    /\ kept item item'.
Proof.
  intros Hn. apply calls_kept; [exact Hn|].
  pose proof (session_well_set int_of_str before) as Hall.
  rewrite Forall_forall in Hall. apply Hall. eapply nth_error_In, Hn.
Qed.

Lemma X11_never_undone_witness :
  exists item',
    nth_error
      (objects (fold_left (handle decimal_int)
                  [RegionText (Some 1%nat) ""; Write (Some 1%nat) (browse_sound "");
                   Remove 1]
                  (session decimal_int
                     [ Add (calm 0.5 (0, 0)) ["C:/img/a.png"; "C:/img/skip.png"];
                       Write (Some 1%nat) (set_region (0, 0, 100, 100));
                       Write (Some 1%nat) (browse_sound "C:/snd/ding.wav");
                       Write (Some 1%nat) (on_click_toggle 2) ]))) 1
    = Some item'
    /\ kept (apply_uis [set_region (0, 0, 100, 100);
                        browse_sound "C:/snd/ding.wav"; on_click_toggle 2]
               (match ImageWatch_init (calm 0.5 (0, 0)) "C:/img/skip.png" with
                | inr item => item
                | inl _ => inert_watch
                end))
            item'.
Proof.
  refine (X11_never_undone decimal_int _ _ 1%nat _ _).
  vm_compute. reflexivity.
Defined.

(** ** Splitting and joining *)

Lemma split_on_nonempty (sep : ascii) (s : string) : split_on sep s <> [].
Proof.
  destruct s as [| c r]; simpl; [discriminate|].
  destruct (Ascii.eqb c sep); [discriminate|].
  destruct (split_on sep r); discriminate.
Qed.

Lemma split_on_length (sep : ascii) (s : string) :
  List.length (split_on sep s) = S (count_char sep s).
Proof.
  induction s as [| c r IH]; simpl; [reflexivity|].
  destruct (Ascii.eqb c sep); simpl; [rewrite IH; reflexivity|].
  destruct (split_on sep r); simpl in *; [discriminate | exact IH].
Qed.

Lemma split_on_clean (sep : ascii) (s : string) :
  Forall (fun p => has_char sep p = false) (split_on sep s).
Proof.
  induction s as [| c r IH]; simpl; [repeat constructor|].
  destruct (Ascii.eqb c sep) eqn:E; [constructor; [reflexivity | exact IH]|].
  destruct (split_on sep r) as [| part parts]; [repeat constructor; simpl; rewrite E; reflexivity|].
  inversion IH; subst. constructor; [simpl; rewrite E; assumption | assumption].
Qed.

(** [sep.join(s.split(sep))] is [s]. *)
Lemma join_split (sep : ascii) (s : string) :
  String.concat (String sep "") (split_on sep s) = s.
Proof.
  induction s as [| c r IH]; simpl; [reflexivity|].
  destruct (Ascii.eqb c sep) eqn:E.
  - apply Ascii.eqb_eq in E. subst c.
    pose proof (split_on_nonempty sep r) as Hne.
    destruct (split_on sep r) as [| y ys]; [congruence|].
    simpl in *. rewrite IH. reflexivity.
  - destruct (split_on sep r) as [| part parts]; simpl in *;
      [rewrite <- IH; reflexivity|].
    destruct parts; simpl in *; rewrite <- IH; reflexivity.
Qed.

Lemma split_on_none (sep : ascii) (p : string) :
  has_char sep p = false -> split_on sep p = [p].
Proof.
  induction p as [| c r IH]; simpl; [reflexivity|].
  intros H. apply orb_false_iff in H. destruct H as [Hc Hr].
  rewrite Hc, (IH Hr). reflexivity.
Qed.

Lemma split_on_app (sep : ascii) (p rest : string) :
  has_char sep p = false ->
  split_on sep (p ++ String sep rest)%string = p :: split_on sep rest.
Proof.
  induction p as [| c r IH]; simpl.
  - intros _. rewrite Ascii.eqb_refl. reflexivity.
  - intros H. apply orb_false_iff in H. destruct H as [Hc Hr].
    rewrite Hc, (IH Hr). reflexivity.
Qed.

(** [sep.join(parts).split(sep)] is [parts], when no part has [sep]. *)
Lemma split_join (sep : ascii) (parts : list string) :
  parts <> [] -> Forall (fun p => has_char sep p = false) parts ->
  split_on sep (String.concat (String sep "") parts) = parts.
Proof.
  induction parts as [| x xs IH]; [congruence|]. intros _ Hall.
  inversion Hall as [| ? ? Hx Hxs]; subst.
  destruct xs as [| y ys]; simpl.
  - apply split_on_none, Hx.
  - change (String.concat (String sep "") (y :: ys)) with
      (String.concat (String sep "") (y :: ys)).
    rewrite (split_on_app sep x _ Hx). f_equal.
    apply IH; [discriminate | exact Hxs].
Qed.

Lemma append_assoc (a b c : string) :
  ((a ++ b) ++ c)%string = (a ++ (b ++ c))%string.
Proof.
  induction a as [| x a IH]; simpl; [reflexivity|]. rewrite IH. reflexivity.
Qed.

Lemma concat_snoc (sep : string) (init : list string) (x : string) :
  init <> [] ->
  String.concat sep (init ++ [x])
  = (String.concat sep init ++ sep ++ x)%string.
Proof.
  induction init as [| a init IH]; [congruence|]. intros _.
  destruct init as [| a' init]; simpl; [reflexivity|].
  simpl in IH. rewrite IH by discriminate.
  rewrite !append_assoc. reflexivity.
Qed.

(** X12: the text of a row is the file name of the path: what follows its
    last '/', the whole path when it has none.  It has no '/' itself, and
    the path is a directory part, empty or ending in '/', followed by
    it. *)
Theorem X12_basename (p : string) :
  has_char "/" (basename p) = false
  /\ (exists dir,
        p = (dir ++ basename p)%string
        /\ (dir = "" \/ exists d, dir = (d ++ "/")%string))
  /\ (has_char "/" p = false -> basename p = p).
Proof.
  unfold basename.
  pose proof (split_on_clean "/" p) as Hclean.
  pose proof (join_split "/" p) as Hjoin.
  pose proof (split_on_nonempty "/" p) as Hne.
  split; [| split].
  - rewrite Forall_forall in Hclean. apply Hclean.
    destruct (@exists_last _ (split_on "/" p) Hne) as (init & x & ->).
    rewrite last_last. apply in_or_app. right. left. reflexivity.
  - destruct (@exists_last _ (split_on "/" p) Hne) as (init & x & E).
    rewrite E in *. rewrite last_last.
    destruct init as [| a init].
    + exists "". simpl in Hjoin. auto.
    + exists (String.concat "/" (a :: init) ++ "/")%string.
      rewrite concat_snoc in Hjoin by discriminate.
      split; [| right; eexists; reflexivity].
      rewrite <- Hjoin, !append_assoc. reflexivity.
  - intros H. rewrite (split_on_none "/" p H). reflexivity.
Qed.

(** X13: [_on_add] adds, for every path in turn, one new watch at the end
    of the list and one row at the end of the list widget, with the file
    name as its text and that watch as its data; what was there before
    stays.  A file that does not decode is added like any other.  When
    [ImageWatch(p)] raises, the paths before [p] have been added and those
    from [p] on have not. *)
Theorem X13_on_add (b : backend) (mw : MainWindow) :
  (forall paths items,
     map (ImageWatch_init b) paths = map inr items ->
     on_add b paths mw
     = ({| objects := objects mw ++ items;
           window_watch_list :=
             window_watch_list mw
               ++ seq (List.length (objects mw)) (List.length items);
           list_widget :=
             list_widget mw
               ++ combine (map basename paths)
                    (seq (List.length (objects mw)) (List.length items)) |},
        None))
  /\ (forall pre p post items e,
       map (ImageWatch_init b) pre = map inr items ->
       ImageWatch_init b p = inl e ->
       on_add b (pre ++ p :: post) mw = (fst (on_add b pre mw), Some e))
  /\ (forall p, cv2_imread b p = None ->
      exists item, map (ImageWatch_init b) [p] = map inr [item]
                   /\ template item = None).
Proof.
  split; [| split].
  - intros paths. revert mw.
    induction paths as [| p rest IH]; intros mw items Hmap.
    + destruct items; [| discriminate]. simpl. rewrite !app_nil_r.
      destruct mw; reflexivity.
    + destruct items as [| item items]; [discriminate|].
      simpl in Hmap. injection Hmap as Hp Hrest.
      simpl. rewrite Hp, (IH _ items Hrest). simpl.
      rewrite length_app, Nat.add_1_r, <- !app_assoc. reflexivity.
  - intros pre. revert mw.
    induction pre as [| q pre IH]; intros mw p post items e Hmap Hp; simpl.
    + rewrite Hp. reflexivity.
    + destruct items as [| item items]; [discriminate|].
      simpl in Hmap. injection Hmap as Hq Hrest.
      rewrite Hq. apply (IH _ p post items e Hrest Hp).
  - intros p Hread. simpl. unfold ImageWatch_init. rewrite Hread.
    eexists. split; reflexivity.
Qed.

Lemma X13_on_add_witness :
  on_add (calm 0.5 (0, 0)) ["C:/img/a.png"; "b.png"] MainWindow_init
  = ({| objects := objects MainWindow_init
                     ++ [set_path "C:/img/a.png" inert_watch;
                         set_path "b.png" inert_watch];
        window_watch_list :=
          window_watch_list MainWindow_init
            ++ seq (List.length (objects MainWindow_init)) 2;
        list_widget :=
          list_widget MainWindow_init
            ++ combine (map basename ["C:/img/a.png"; "b.png"])
                 (seq (List.length (objects MainWindow_init)) 2) |},
     None).
Proof.
  apply (proj1 (X13_on_add (calm 0.5 (0, 0)) MainWindow_init)
           ["C:/img/a.png"; "b.png"]
           [set_path "C:/img/a.png" inert_watch; set_path "b.png" inert_watch]).
  reflexivity.
Defined.

(** ** The region box *)

Lemma map_int_length (int_of_str : string -> res Z) (parts : list string) :
  forall ns, map_int int_of_str parts = inr ns ->
             List.length ns = List.length parts.
Proof.
  induction parts as [| p rest IH]; intros ns; simpl.
  - intros H. injection H as <-. reflexivity.
  - destruct (int_of_str p) as [e | n]; [discriminate|].
    destruct (map_int int_of_str rest) as [e | ms]; [discriminate|].
    intros H. injection H as <-. simpl. rewrite (IH ms eq_refl). reflexivity.
Qed.

Lemma write_same_region (mw : MainWindow) (row : nat) (label : string)
    (ref : nat) (item : ImageWatch) (r : Z * Z * Z * Z) :
  nth_error (list_widget mw) row = Some (label, ref) ->
  nth_error (objects mw) ref = Some item ->
  region item = Some r ->
  write_current (Some row) (set_region r) mw = mw.
Proof.
  intros Hr Ho Hreg. unfold write_current. rewrite Hr.
  rewrite (update_same _ _ ref item Ho).
  - destruct mw; reflexivity.
  - destruct item; simpl in *. subst. reflexivity.
Qed.

(** X14: [_on_region_text] writes a region only for a text of four parts
    between three commas, each of which [int] accepts; for any other text,
    the empty one among them, it leaves everything as it is and raises
    nothing, so the box cannot take a region away.  The text [_on_select]
    shows for a region, submitted as it is, writes the same region back,
    provided [int] reads back what [str] prints for the four numbers and
    [str] prints no comma. *)
Theorem X14_region_text (int_of_str : string -> res Z)
    (str_of_int : Z -> string) (mw : MainWindow) (cur : option nat)
    (text : string) :
  (count_char "," text <> 3%nat -> on_region_text int_of_str cur text mw = mw)
  /\ (forall e, map_int int_of_str (split_on "," text) = inl e ->
      on_region_text int_of_str cur text mw = mw)
  /\ on_region_text int_of_str cur "" mw = mw
  /\ (forall row x y rw rh,
      nth_error (list_widget mw) row <> None ->
      map_int int_of_str (split_on "," text) = inr [x; y; rw; rh] ->
      on_region_text int_of_str (Some row) text mw
      = write_current (Some row) (set_region (x, y, rw, rh)) mw)
  /\ (forall row label ref item x y rw rh,
      nth_error (list_widget mw) row = Some (label, ref) ->
      nth_error (objects mw) ref = Some item ->
      region item = Some (x, y, rw, rh) ->
      Forall (fun n => int_of_str (str_of_int n) = inr n
                       /\ has_char "," (str_of_int n) = false)
             [x; y; rw; rh] ->
      on_region_text int_of_str (Some row) (region_text str_of_int item) mw
      = mw).
Proof.
  assert (Hlen : forall t, count_char "," t <> 3%nat ->
                 on_region_text int_of_str cur t mw = mw).
  { intros t Hc. unfold on_region_text.
    destruct cur as [row |]; [| reflexivity].
    destruct (nth_error (list_widget mw) row); [| reflexivity].
    destruct (map_int int_of_str (split_on "," t)) as [e | ns] eqn:E;
      [reflexivity|].
    apply map_int_length in E. rewrite split_on_length in E.
    destruct ns as [| x [| y [| rw [| rh [| extra tl]]]]]; try reflexivity.
    simpl in E. lia. }
  split; [apply Hlen | split; [| split; [| split]]].
  - intros e He. unfold on_region_text.
    destruct cur as [row |]; [| reflexivity].
    destruct (nth_error (list_widget mw) row); [| reflexivity].
    rewrite He. reflexivity.
  - apply Hlen. simpl. lia.
  - intros row x y rw rh Hrow Hparse. unfold on_region_text.
    destruct (nth_error (list_widget mw) row); [| congruence].
    rewrite Hparse. reflexivity.
  - intros row label ref item x y rw rh Hrow Hobj Hreg Hnum.
    unfold on_region_text, region_text. rewrite Hrow, Hreg.
    inversion Hnum as [| ? ? [Hx Cx] H1]; subst.
    inversion H1 as [| ? ? [Hy Cy] H2]; subst.
    inversion H2 as [| ? ? [Hw Cw] H3]; subst.
    inversion H3 as [| ? ? [Hh Ch] _]; subst.
    rewrite split_join by (try discriminate; repeat constructor; assumption).
    simpl. rewrite Hx, Hy, Hw, Hh.
    eapply write_same_region; eassumption.
Qed.

Lemma X14_region_text_witness :
  on_region_text decimal_int (Some 1%nat)
    (region_text decimal_str
       (apply_uis [set_region (0, 0, 100, 100);
                   browse_sound "C:/snd/ding.wav"; on_click_toggle 2]
          (set_path "C:/img/skip.png" inert_watch)))
    two_rows
  = two_rows
  /\ on_region_text decimal_int (Some 1%nat) "0,0,100" two_rows = two_rows.
Proof.
  destruct (X14_region_text decimal_int decimal_str two_rows (Some 1%nat)
              "0,0,100") as (Hcount & _ & _ & _ & Hback).
  split.
  - apply (Hback 1%nat "skip.png" 1%nat _ 0 0 100 100);
      try (vm_compute; reflexivity).
    repeat constructor; vm_compute; reflexivity.
  - apply Hcount. vm_compute. lia.
Defined.

(** ** The order of the calls of a step *)

Lemma sorted_app {A} (R : A -> A -> Prop) (l1 l2 : list A) :
  StronglySorted R l1 -> StronglySorted R l2 ->
  (forall x y, In x l1 -> In y l2 -> R x y) ->
  StronglySorted R (l1 ++ l2).
Proof.
  induction l1 as [| a l1 IH]; intros H1 H2 Hc; simpl; [exact H2|].
  inversion H1 as [| ? ? Hs Hall]; subst. constructor.
  - apply IH; [exact Hs | exact H2 |].
    intros x y Hx Hy. apply Hc; [right; exact Hx | exact Hy].
  - apply Forall_app. split; [exact Hall|].
    apply Forall_forall. intros y Hy. apply Hc; [left; reflexivity | exact Hy].
Qed.

Lemma sorted_actions (l : list event) :
  Forall (fun ev => phase ev = 4%nat) l -> StronglySorted before l.
Proof.
  induction 1 as [| ev l Hev Hl IH]; constructor; [exact IH|].
  eapply Forall_impl; [| exact Hl]. intros y Hy. right. auto.
Qed.

Lemma perform_phase (b : backend) (a : action) (s : ImageWatch) (ev : event) :
  In ev (trace (perform b a s)) -> phase ev = 4%nat.
Proof.
  destruct a; simpl; try (intros [<- | []]; reflexivity).
  unfold trace, bring_to_foreground, bind, call, ret.
  destruct (EnumWindows b) as [e | hwnds]; simpl;
    [intros [<- | []]; reflexivity|].
  destruct (filter _ hwnds) as [| hw tl]; simpl;
    [intros [<- | []]; reflexivity|].
  destruct (ShowWindow b hw 5) as [e | []]; simpl;
    intuition (subst; reflexivity).
Qed.

(** The calls of [locate]: capture, grayscale, match, OCR, up to the first
    that raises or to the last that is due. *)
Lemma locate_calls (b : backend) (lang : string) (item : ImageWatch) :
  trace (locate b lang item) = []
  \/ exists mon,
       select_mon b item = inr mon
       /\ (trace (locate b lang item) = [EGrab mon]
           \/ trace (locate b lang item) = [EGrab mon; ECvtColor]
           \/ (template item <> None
               /\ (trace (locate b lang item)
                   = [EGrab mon; ECvtColor; EMatchTemplate (is_Some (mask item))]
                   \/ trace (locate b lang item)
                      = [EGrab mon; ECvtColor;
                         EMatchTemplate (is_Some (mask item)); EOcr lang]))).
Proof.
  unfold locate, trace. run_monad.
  destruct (select_mon b item) as [e | m]; simpl; [auto|].
  right. exists m. split; [reflexivity|].
  destruct (sct_grab b m) as [e | frame]; simpl; [auto|].
  destruct (first3 frame) as [e | bgr]; simpl; [auto|].
  destruct (grayscale b bgr) as [e | gray]; simpl; [auto|].
  destruct (template item) as [templ |]; simpl; [| auto].
  right. right. split; [discriminate|].
  destruct (cv2_matchTemplate b gray templ (mask item)) as [e | [score loc]];
    simpl; [auto|].
  destruct (negb (threshold item <=? score)%float && ocr_fallback item);
    simpl; [| auto].
  destruct (image_to_string b frame lang) as [e | text]; simpl; [auto|].
  destruct (contains "skip" (lower text)); simpl; auto.
Qed.

(** X15: the calls of one watch on one tick come in the order of the
    body: the capture of the rectangle of the watch, the grayscale
    conversion, the match (with mask exactly when the watch has one), OCR,
    then the actions, then the report of an exception; each of the first
    four and the report at most once.  So no action is called before the
    capture and the match of the same tick, and a watch reports at most one
    error per tick, after everything else it did. *)
Theorem X15_order_of_calls (b : backend) (lang : string) (item : ImageWatch) :
  StronglySorted before (snd (guarded_item b lang item))
  /\ (forall mon, In (EGrab mon) (snd (guarded_item b lang item)) ->
      select_mon b item = inr mon)
  /\ (forall m, In (EMatchTemplate m) (snd (guarded_item b lang item)) ->
      m = is_Some (mask item) /\ template item <> None)
  /\ (forall e, In (EError e) (snd (guarded_item b lang item)) ->
      exists t, snd (guarded_item b lang item) = t ++ [EError e]
                /\ existsb is_error t = false).
Proof.
  assert (Hshape : exists tl acts errs,
            snd (guarded_item b lang item) = tl ++ acts ++ errs
            /\ tl = trace (locate b lang item)
            /\ Forall (fun ev => phase ev = 4%nat) acts
            /\ (errs = [] \/ exists e, errs = [EError e])).
  { rewrite guarded_item_eq. cbv zeta.
    exists (trace (locate b lang item)).
    destruct (outcome (locate b lang item)) as [e | [[[mon found] loc] |]].
    - exists [], [EError e]. simpl. eauto 6.
    - destruct found; [destruct (_triggered item) |];
        try solve [exists [], []; simpl; rewrite app_nil_r; auto].
      eexists; eexists. simpl. split; [reflexivity|].
      split; [reflexivity | split].
      + apply Forall_forall. intros ev Hev.
        apply reached_calls in Hev. unfold calls_of in Hev.
        rewrite in_flat_map in Hev. destruct Hev as (a & _ & Hev).
        eapply perform_phase, Hev.
      + destruct (first_failure b _ _); eauto.
    - exists [], []. simpl. rewrite app_nil_r. auto. }
  destruct Hshape as (tl & acts & errs & Ht & Htl & Hacts & Herrs).
  rewrite Ht. clear Ht.
  assert (Hlow : StronglySorted before tl
                 /\ (forall ev, In ev tl -> (phase ev < 4)%nat)
                 /\ (forall mon, In (EGrab mon) tl -> select_mon b item = inr mon)
                 /\ (forall m, In (EMatchTemplate m) tl ->
                     m = is_Some (mask item) /\ template item <> None)).
  { subst tl.
    destruct (locate_calls b lang item)
      as [-> | (mon & Hm & [-> | [-> | (Hte & [-> | ->])]])];
      (split; [repeat constructor; unfold before; simpl; lia|]);
      (split; [simpl; intros ev Hev;
               repeat (destruct Hev as [<- | Hev]; [simpl; lia|]);
               destruct Hev|]);
      (split; [simpl; intros mon' Hev;
               repeat (destruct Hev as [Hev | Hev];
                       [try discriminate; injection Hev as <-; exact Hm|]);
               destruct Hev|]);
      simpl; intros m Hev;
      repeat (destruct Hev as [Hev | Hev];
              [try discriminate; injection Hev as <-; auto|]);
      destruct Hev. }
  destruct Hlow as (Hs & Hlt & Hgrab & Hmatch).
  assert (Herr5 : forall ev, In ev errs -> phase ev = 5%nat).
  { intros ev Hev. destruct Herrs as [-> | [e ->]]; [destruct Hev|].
    destruct Hev as [<- | []]. reflexivity. }
  rewrite Forall_forall in Hacts.
  split; [| split; [| split]].
  - apply sorted_app; [exact Hs | apply sorted_app |].
    + apply sorted_actions, Forall_forall, Hacts.
    + destruct Herrs as [-> | [e ->]]; repeat constructor.
    + intros x y Hx Hy. left. rewrite (Hacts x Hx), (Herr5 y Hy). lia.
    + intros x y Hx Hy. left. specialize (Hlt x Hx).
      apply in_app_or in Hy. destruct Hy as [Hy | Hy];
        [rewrite (Hacts y Hy) | rewrite (Herr5 y Hy)]; lia.
  - intros mon Hin. apply in_app_or in Hin. destruct Hin as [Hin | Hin];
      [apply Hgrab, Hin|].
    apply in_app_or in Hin. destruct Hin as [Hin | Hin];
      [specialize (Hacts _ Hin) | specialize (Herr5 _ Hin)]; discriminate.
  - intros m Hin. apply in_app_or in Hin. destruct Hin as [Hin | Hin];
      [apply Hmatch, Hin|].
    apply in_app_or in Hin. destruct Hin as [Hin | Hin];
      [specialize (Hacts _ Hin) | specialize (Herr5 _ Hin)]; discriminate.
  - intros e Hin. apply in_app_or in Hin. destruct Hin as [Hin | Hin];
      [specialize (Hlt _ Hin); simpl in Hlt; lia|].
    apply in_app_or in Hin. destruct Hin as [Hin | Hin];
      [specialize (Hacts _ Hin); discriminate|].
    destruct Herrs as [-> | [e' ->]]; [destruct Hin|].
    destruct Hin as [Hin | []]. injection Hin as ->.
    exists (tl ++ acts). rewrite app_assoc. split; [reflexivity|].
    rewrite existsb_app. apply orb_false_iff. split.
    + destruct (existsb is_error tl) eqn:E; [| reflexivity].
      apply existsb_exists in E. destruct E as (x & Hx & Hxe).
      specialize (Hlt x Hx). destruct x; simpl in *; try discriminate; lia.
    + destruct (existsb is_error acts) eqn:E; [| reflexivity].
      apply existsb_exists in E. destruct E as (x & Hx & Hxe).
      specialize (Hacts x Hx). destruct x; simpl in *; discriminate.
Qed.
